(** * aws-lambda-go: build-lambda-zip, lambda/messages and events

    A shallow embedding of three source files of the repository:

    - [cmd/build-lambda-zip] (package [main]): [writeExe],
      [compressExeAndArgs], [compressExeAndArgsToFile], [goBuild],
      [updateFunctionCode] and [deref];
    - [lambda/messages/errors.go]: [getErrorType] and [FromError];
    - [events] (Lambda function URLs): the JSON methods of
      [commaSeperatedValues], [functionURLHeaders] and [functionURLValues].

    Go strings and byte slices are byte sequences: names and header values
    are [string] (a list of 8-bit [ascii]), file contents are [list byte].
    Fixed-width integers are [Z] with their masks written out.  Functions of
    the Go standard library and of the AWS SDK that the code calls
    ([archive/zip], [path/filepath], [os/exec], [encoding/json], [strings],
    [reflect]) are modelled next to their callers, each with the behaviour
    its documentation fixes. *)

From Stdlib Require Import ZArith Strings.String Strings.Ascii Strings.Byte List Bool Lia.
From stdpp Require Import base option list gmap strings sorting.

Set Warnings "-register-all".

Local Open Scope string_scope.
Local Open Scope list_scope.
Local Open Scope Z_scope.

(** Go's [error] as the tool sees it: an opaque value carrying a message. *)
Definition error := string.

(** The result of a Go call returning [(T, error)]. *)
Inductive res (A : Type) : Type :=
| OK (a : A)
| Err (e : error).
Arguments OK {A} a.
Arguments Err {A} e.

(** [strings.HasSuffix(s, "/")]. *)
Fixpoint endsWithSlash (s : string) : bool :=
  match s with
  | EmptyString => false
  | String c EmptyString => Ascii.eqb c "/"
  | String _ rest => endsWithSlash rest
  end.

(** The caller's file system as [ioutil.ReadFile] sees it: the contents of
    a path or the error of reading it.  A path with a trailing separator
    names no regular file ([ENOTDIR], or [EISDIR] on the read), so reading
    it fails. *)
Record FileSystem : Type := mkFileSystem {
  ReadFile : string -> res (list byte);
  ReadFile_directory :
    forall path, endsWithSlash path = true -> exists e, ReadFile path = Err e
}.

(** ** path/filepath.Base (Unix separators) *)
Module Filepath.

Definition isPathSeparator (c : ascii) : bool := Ascii.eqb c "/".

(** [for len(path) > 0 && os.IsPathSeparator(path[len(path)-1])]:
    drop the maximal suffix of separators. *)
Fixpoint stripTrailingSlashes (path : string) : string :=
  match path with
  | EmptyString => EmptyString
  | String c rest =>
      match stripTrailingSlashes rest with
      | EmptyString => if isPathSeparator c then EmptyString else String c EmptyString
      | rest' => String c rest'
      end
  end.

Fixpoint hasSeparator (path : string) : bool :=
  match path with
  | EmptyString => false
  | String c rest => isPathSeparator c || hasSeparator rest
  end.

(** [path[i+1:]] for the last index [i] holding a separator, the whole
    path when there is none. *)
Fixpoint lastElement (path : string) : string :=
  match path with
  | EmptyString => EmptyString
  | String c rest =>
      if hasSeparator rest then lastElement rest
      else if isPathSeparator c then rest
      else String c rest
  end.

Definition Base (path : string) : string :=
  match path with
  | EmptyString => "."
  | _ =>
      match lastElement (stripTrailingSlashes path) with
      | EmptyString => "/"
      | elem => elem
      end
  end.

End Filepath.

(** ** archive/zip: headers, modes and the writer *)
Module Zip.

(** Compression methods. *)
Definition Store : Z := 0.
Definition Deflate : Z := 8.

(** [io/fs.FileMode] bits. *)
Definition ModeDir : Z := Z.shiftl 1 31.
Definition ModeSymlink : Z := Z.shiftl 1 27.
Definition ModeDevice : Z := Z.shiftl 1 26.
Definition ModeNamedPipe : Z := Z.shiftl 1 25.
Definition ModeSocket : Z := Z.shiftl 1 24.
Definition ModeSetuid : Z := Z.shiftl 1 23.
Definition ModeSetgid : Z := Z.shiftl 1 22.
Definition ModeCharDevice : Z := Z.shiftl 1 21.
Definition ModeSticky : Z := Z.shiftl 1 20.
Definition ModeIrregular : Z := Z.shiftl 1 19.
Definition ModeType : Z :=
  Z.lor ModeDir (Z.lor ModeSymlink (Z.lor ModeNamedPipe
    (Z.lor ModeSocket (Z.lor ModeDevice (Z.lor ModeCharDevice ModeIrregular))))).
(** [ModePerm = 0777]. *)
Definition ModePerm : Z := 0x1ff.

(** Octal literals of the source. *)
Definition o0755 : Z := 7 * 64 + 5 * 8 + 5.
Definition o0777 : Z := 7 * 64 + 7 * 8 + 7.
Definition o0666 : Z := 6 * 64 + 6 * 8 + 6.
Definition o0222 : Z := 2 * 64 + 2 * 8 + 2.
Definition o0200 : Z := 2 * 64.

(** Unix [st_mode] constants and MS-DOS attributes of archive/zip. *)
Definition s_IFMT : Z := 0xf000.
Definition s_IFSOCK : Z := 0xc000.
Definition s_IFLNK : Z := 0xa000.
Definition s_IFREG : Z := 0x8000.
Definition s_IFBLK : Z := 0x6000.
Definition s_IFDIR : Z := 0x4000.
Definition s_IFCHR : Z := 0x2000.
Definition s_IFIFO : Z := 0x1000.
Definition s_ISUID : Z := 0x800.
Definition s_ISGID : Z := 0x400.
Definition s_ISVTX : Z := 0x200.
Definition msdosDir : Z := 0x10.
Definition msdosReadOnly : Z := 0x01.

Definition creatorFAT : Z := 0.
Definition creatorUnix : Z := 3.
Definition creatorNTFS : Z := 11.
Definition creatorVFAT : Z := 14.
Definition creatorMacOSX : Z := 19.
Definition zipVersion20 : Z := 20.

Definition uint16 (z : Z) : Z := Z.land z 0xffff.
Definition uint32 (z : Z) : Z := Z.land z 0xffffffff.

(** The fields of [zip.FileHeader] that the tool sets or that decide an
    entry's mode. *)
Record FileHeader : Type := mkFileHeader {
  Name : string;
  Method : Z;            (* uint16 *)
  CreatorVersion : Z;    (* uint16 *)
  ExternalAttrs : Z      (* uint32 *)
}.

(** [&zip.FileHeader{Name: name, Method: method}]: other fields zero. *)
Definition newHeader (name : string) (method : Z) : FileHeader :=
  {| Name := name; Method := method; CreatorVersion := 0; ExternalAttrs := 0 |}.

Definition fileModeToUnixMode (mode : Z) : Z :=
  let t := Z.land mode ModeType in
  let m :=
    if t =? ModeDir then s_IFDIR
    else if t =? ModeSymlink then s_IFLNK
    else if t =? ModeNamedPipe then s_IFIFO
    else if t =? ModeSocket then s_IFSOCK
    else if t =? ModeDevice then s_IFBLK
    else if t =? Z.lor ModeDevice ModeCharDevice then s_IFCHR
    else s_IFREG in
  let m := if Z.land mode ModeSetuid =? 0 then m else Z.lor m s_ISUID in
  let m := if Z.land mode ModeSetgid =? 0 then m else Z.lor m s_ISGID in
  let m := if Z.land mode ModeSticky =? 0 then m else Z.lor m s_ISVTX in
  Z.lor m (Z.land mode o0777).

(** [func (h *FileHeader) SetMode(mode fs.FileMode)]. *)
Definition SetMode (h : FileHeader) (mode : Z) : FileHeader :=
  let cv := Z.lor (Z.land (CreatorVersion h) 0xff) (Z.shiftl creatorUnix 8) in
  let ea := uint32 (Z.shiftl (fileModeToUnixMode mode) 16) in
  let ea := if Z.land mode ModeDir =? 0 then ea else Z.lor ea msdosDir in
  let ea := if Z.land mode o0200 =? 0 then Z.lor ea msdosReadOnly else ea in
  {| Name := Name h; Method := Method h;
     CreatorVersion := uint16 cv; ExternalAttrs := ea |}.

Definition unixModeToFileMode (m : Z) : Z :=
  let mode := Z.land m o0777 in
  let t := Z.land m s_IFMT in
  let mode :=
    if t =? s_IFBLK then Z.lor mode ModeDevice
    else if t =? s_IFCHR then Z.lor mode (Z.lor ModeDevice ModeCharDevice)
    else if t =? s_IFDIR then Z.lor mode ModeDir
    else if t =? s_IFIFO then Z.lor mode ModeNamedPipe
    else if t =? s_IFLNK then Z.lor mode ModeSymlink
    else if t =? s_IFSOCK then Z.lor mode ModeSocket
    else mode in
  let mode := if Z.land m s_ISGID =? 0 then mode else Z.lor mode ModeSetgid in
  let mode := if Z.land m s_ISUID =? 0 then mode else Z.lor mode ModeSetuid in
  let mode := if Z.land m s_ISVTX =? 0 then mode else Z.lor mode ModeSticky in
  mode.

Definition msdosModeToFileMode (m : Z) : Z :=
  let mode := if Z.land m msdosDir =? 0 then o0666 else Z.lor ModeDir o0777 in
  if Z.land m msdosReadOnly =? 0 then mode
  else Z.land mode (Z.lnot o0222).

(** [func (h *FileHeader) Mode() fs.FileMode]. *)
Definition Mode (h : FileHeader) : Z :=
  let creator := Z.shiftr (CreatorVersion h) 8 in
  let mode :=
    if (creator =? creatorUnix) || (creator =? creatorMacOSX)
    then unixModeToFileMode (Z.shiftr (ExternalAttrs h) 16)
    else if (creator =? creatorNTFS) || (creator =? creatorVFAT) || (creator =? creatorFAT)
    then msdosModeToFileMode (ExternalAttrs h)
    else 0 in
  if endsWithSlash (Name h) then Z.lor mode ModeDir else mode.

(** An archive entry: the header as stored and the bytes written to it. *)
Record Entry : Type := mkEntry {
  header : FileHeader;
  body : list byte
}.

Definition isSymlink (e : Entry) : bool :=
  negb (Z.land (Mode (header e)) ModeSymlink =? 0).

(** [fs.FileMode.IsRegular]: no type bit set. *)
Definition isRegular (e : Entry) : bool :=
  Z.land (Mode (header e)) ModeType =? 0.

(** [fs.FileMode.Perm]. *)
Definition perm (e : Entry) : Z := Z.land (Mode (header e)) ModePerm.

(** A [zip.Writer] over its underlying [io.Writer].  [entries] is the
    archive emitted so far, in order; [closed] records that [Close] wrote
    the central directory.  [faults] scripts the underlying writer: the
    outcome of each coming operation on it ([None]: the bytes are
    accepted), an exhausted script accepting everything. *)
Record Writer : Type := mkWriter {
  entries : list Entry;
  closed : bool;
  faults : list (option error)
}.

(** [zip.NewWriter(w)]. *)
Definition NewWriter (script : list (option error)) : Writer :=
  {| entries := []; closed := false; faults := script |}.

(** Code running against a writer, returning a value or an error. *)
Definition M (A : Type) : Type := Writer -> res A * Writer.

Definition ret {A} (a : A) : M A := fun w => (OK a, w).

Definition bind {A B} (m : M A) (f : A -> M B) : M B :=
  fun w =>
    match m w with
    | (OK a, w') => f a w'
    | (Err e, w') => (Err e, w')
    end.

(** A call such as [ioutil.ReadFile] that does not touch the writer. *)
Definition lift {A} (r : res A) : M A := fun w => (r, w).

(** One operation on the underlying writer. *)
Definition io (w : Writer) : option error * Writer :=
  match faults w with
  | [] => (None, w)
  | f :: script => (f, {| entries := entries w; closed := closed w; faults := script |})
  end.

(** What [CreateHeader] changes in the header it is given: it keeps the
    caller's compatibility byte and records the version
    ([fh.CreatorVersion = fh.CreatorVersion&0xff00 | zipVersion20]), and
    a name ending in a slash is a directory, stored uncompressed
    ([fh.Method = Store]). *)
Definition stamp (fh : FileHeader) : FileHeader :=
  {| Name := Name fh;
     Method := if endsWithSlash (Name fh) then Store else Method fh;
     CreatorVersion := Z.lor (Z.land (CreatorVersion fh) 0xff00) zipVersion20;
     ExternalAttrs := ExternalAttrs fh |}.

(** [func (w *Writer) CreateHeader(fh *FileHeader) (io.Writer, error)]:
    ends the entry in progress and starts a new one.  The handle returned
    is the position of the new entry. *)
Definition CreateHeader (fh : FileHeader) : M nat :=
  fun w =>
    match io w with
    | (Some e, w') => (Err e, w')
    | (None, w') =>
        (OK (length (entries w')),
         {| entries := entries w' ++ [ {| header := stamp fh; body := [] |} ];
            closed := closed w'; faults := faults w' |})
    end.

(** [func (w *Writer) Create(name string) (io.Writer, error)]:
    [CreateHeader(&FileHeader{Name: name, Method: Deflate})]. *)
Definition Create (name : string) : M nat :=
  CreateHeader (newHeader name Deflate).

Definition appendBody (data : list byte) (e : Entry) : Entry :=
  {| header := header e; body := body e ++ data |}.

Definition isDirectory (handle : nat) (w : Writer) : bool :=
  match entries w !! handle with
  | Some e => endsWithSlash (Name (header e))
  | None => false
  end.

(** [Write] on an entry handle.  A directory entry takes no data
    ([dirWriter]); of the others only the entry created last accepts
    data ("zip: write to closed file" otherwise). *)
Definition Write (handle : nat) (data : list byte) : M nat :=
  fun w =>
    if isDirectory handle w then
      match data with
      | [] => (OK 0%nat, w)
      | _ => (Err "zip: write to directory", w)
      end
    else if (S handle =? length (entries w))%nat then
      match io w with
      | (Some e, w') => (Err e, w')
      | (None, w') =>
          (OK (length data),
           {| entries := alter (appendBody data) handle (entries w');
              closed := closed w'; faults := faults w' |})
      end
    else (Err "zip: write to closed file", w).

(** [func (w *Writer) Close() error]. *)
Definition Close (w : Writer) : option error * Writer :=
  if closed w then (Some "zip: writer closed twice", w)
  else
    let '(f, w') := io w in
    (f, {| entries := entries w'; closed := true; faults := faults w' |}).

End Zip.

(** ** os/exec: commands and their environment *)
Module Exec.

(** [exec.Cmd]: the argument vector and [Cmd.Env], entries ["key=value"]. *)
Record Cmd : Type := mkCmd {
  Args : list string;
  Env : list string
}.

(** The entry cut at its first ['=']; [None] when it has none. *)
Fixpoint splitKV (kv : string) : option (string * string) :=
  match kv with
  | EmptyString => None
  | String c rest =>
      if Ascii.eqb c "=" then Some (EmptyString, rest)
      else match splitKV rest with
           | Some (k, v) => Some (String c k, v)
           | None => None
           end
  end.

Definition binds (key : string) (kv : string) : option string :=
  match splitKV kv with
  | Some (k, v) => if String.eqb k key then Some v else None
  | None => None
  end.

(** The value the started process sees for [key].  os/exec: "If Env
    contains duplicate environment keys, only the last value in the slice
    for each duplicate key is used." *)
Fixpoint lookupEnv (env : list string) (key : string) : option string :=
  match env with
  | [] => None
  | kv :: rest =>
      match lookupEnv rest key with
      | Some v => Some v
      | None => binds key kv
      end
  end.

End Exec.

(** ** cmd/build-lambda-zip *)
Module BuildLambdaZip.
Import Zip.

Declare Scope zip_scope.
Delimit Scope zip_scope with zip.
Notation "'do' x <- m ; k" := (bind m (fun x => k))
  (at level 10, x name, m at level 100, k at level 200) : zip_scope.
Local Open Scope zip_scope.

Definition bootstrap : string := "bootstrap".

(** [[]byte(s)]. *)
Definition bytes (s : string) : list byte := list_byte_of_string s.

(** [func writeExe(writer *zip.Writer, pathInZip string, data []byte) error] *)
Definition writeExe (pathInZip : string) (data : list byte) : M unit :=
  do _ <- (if String.eqb pathInZip bootstrap then ret tt
           else
             let header := newHeader bootstrap Deflate in
             let header := SetMode header (Z.lor o0755 ModeSymlink) in
             do link <- CreateHeader header;
             do _ <- Write link (bytes pathInZip);
             ret tt);
  do exe <- CreateHeader {| CreatorVersion := Z.shiftl 3 8;     (* indicates Unix *)
                            ExternalAttrs := Z.shiftl o0777 16; (* -rwxrwxrwx file permissions *)
                            Name := pathInZip;
                            Method := Deflate |};
  do _ <- Write exe data;
  ret tt.

Section Files.

Variable fsys : FileSystem.

(** The [for _, arg := range args] loop of [compressExeAndArgs]. *)
Fixpoint compressArgs (args : list string) : M unit :=
  match args with
  | [] => ret tt
  | arg :: rest =>
      do writer <- Create arg;
      do data <- lift (ReadFile fsys arg);
      do _ <- Write writer data;
      compressArgs rest
  end.

(** [func compressExeAndArgs(zipFile io.Writer, exePath string, args []string) error].
    [zipFile] is given by the script of its outcomes; the result is the
    returned error ([None] for [nil]) and the writer as the deferred
    [Close] leaves it. *)
Definition compressExeAndArgs (zipFile : list (option error))
    (exePath : string) (args : list string) : option error * Writer :=
  let zipWriter := NewWriter zipFile in
  let '(r, zipWriter) :=
    (do data <- lift (ReadFile fsys exePath);
     do _ <- writeExe (Filepath.Base exePath) data;
     compressArgs args) zipWriter in
  let err := match r with OK _ => None | Err e => Some e end in
  (err, snd (Close zipWriter)).

(** [os.Create]: an error, or the new (truncated) file as a writer. *)
Variable Create_file : string -> res (list (option error)).

(** [func compressExeAndArgsToFile(outZipPath string, exePath string, args []string) error].
    Besides the error, the file the call leaves at [outZipPath]: [None]
    when [os.Create] failed, else what was written to it. *)
Definition compressExeAndArgsToFile (outZipPath exePath : string)
    (args : list string) : option error * option (string * Writer) :=
  match Create_file outZipPath with
  | Err e => (Some e, None)
  | OK zipFile =>
      let '(err, w) := compressExeAndArgs zipFile exePath args in
      (err, Some (outZipPath, w))
  end.

End Files.

(** *** The entries the builder writes, named for the statements below *)

(** The header of the link entry as [CreateHeader] stores it. *)
Definition linkHeader : FileHeader :=
  stamp (SetMode (newHeader bootstrap Deflate) (Z.lor o0755 ModeSymlink)).

(** The header of the executable's entry as stored. *)
Definition exeHeader (pathInZip : string) : FileHeader :=
  stamp {| CreatorVersion := Z.shiftl 3 8; ExternalAttrs := Z.shiftl o0777 16;
           Name := pathInZip; Method := Deflate |}.

(** The header [Create(arg)] stores. *)
Definition auxHeader (arg : string) : FileHeader :=
  stamp (newHeader arg Deflate).

Definition linkEntry (pathInZip : string) : Entry :=
  {| header := linkHeader; body := bytes pathInZip |}.

Definition exeEntry (pathInZip : string) (data : list byte) : Entry :=
  {| header := exeHeader pathInZip; body := data |}.

Definition contents (fsys : FileSystem) (path : string) : list byte :=
  match ReadFile fsys path with
  | OK data => data
  | Err _ => []
  end.

Definition auxEntry (fsys : FileSystem) (arg : string) : Entry :=
  {| header := auxHeader arg; body := contents fsys arg |}.

Definition readable (fsys : FileSystem) (path : string) : Prop :=
  exists data, ReadFile fsys path = OK data.

Definition unreadable (fsys : FileSystem) (path : string) : Prop :=
  exists e, ReadFile fsys path = Err e.

(** The entries [writeExe] adds when it returns nil. *)
Definition exeEntries (pathInZip : string) (data : list byte) : list Entry :=
  (if String.eqb pathInZip bootstrap then [] else [linkEntry pathInZip])
  ++ [exeEntry pathInZip data].

(** An underlying writer that accepts every operation. *)
Definition accepting (zipFile : list (option error)) : Prop :=
  Forall (fun outcome => outcome = None) zipFile.

(** The pair [CreateHeader]; [Write] that [writeExe] performs for each
    of its entries. *)
Definition putEntry (fh : FileHeader) (data : list byte) : M unit :=
  do handle <- CreateHeader fh;
  do _ <- Write handle data;
  ret tt.

(** [func goBuild(in string) (string, error)]: the command it runs. *)
Definition goBuild_cmd (Environ : list string) (in_ : string) : Exec.Cmd :=
  let out := Filepath.Base in_ +:+ ".exe" in
  {| Exec.Args := ["go"; "build"; "-o"; out; in_];
     Exec.Env := ["GOOS=linux"; "GOARCH=amd64"] ++ Environ |}.

Definition goBuild (Environ : list string) (Run : Exec.Cmd -> option error)
    (in_ : string) : string * option error :=
  let out := Filepath.Base in_ +:+ ".exe" in
  (out, Run (goBuild_cmd Environ in_)).

(** *** The deploy client *)

(** [types.LastUpdateStatus] is a string type. *)
Definition LastUpdateStatusSuccessful : string := "Successful".
Definition LastUpdateStatusFailed : string := "Failed".
Definition LastUpdateStatusInProgress : string := "InProgress".

(** The fields read from [lambda.UpdateFunctionCodeOutput]. *)
Record UpdateFunctionCodeOutput : Type := mkUpdateOutput {
  upd_LastUpdateStatus : string;
  upd_StateReason : option string
}.

(** The fields read from [GetFunctionOutput.Configuration]. *)
Record FunctionConfiguration : Type := mkConfiguration {
  LastUpdateStatus : string;
  LastUpdateStatusReason : option string
}.

(** What the operator and the remote service see of a deploy. *)
Inductive Event : Type :=
| EvUpdateFunctionCode (functionName : string) (zipFile : list Entry)
| EvLog (line : string)
| EvSleep (milliseconds : Z)
| EvGetFunction (functionName : string).

(** [func deref(s *string) string] *)
Definition deref (s : option string) : string :=
  match s with
  | None => "<nil>"
  | Some v => v
  end.

(** [log.Printf("state[%s] reason[%s]", status, deref(statusReason))] *)
Definition report (status : string) (statusReason : option string) : string :=
  "state[" +:+ status +:+ "] reason[" +:+ deref statusReason +:+ "]".

(** The [for] loop of [updateFunctionCode].  [replies] scripts the
    successive outcomes of [svc.GetFunction]; the result is [None] when
    the script ends while the loop is still waiting, else the returned
    error, the events in order and the replies not consumed. *)
Fixpoint poll (functionName status : string) (statusReason : option string)
    (replies : list (res FunctionConfiguration)) (trace : list Event)
    : option (option error * list Event * list (res FunctionConfiguration)) :=
  let trace := trace ++ [EvLog (report status statusReason)] in
  if String.eqb status LastUpdateStatusInProgress then
    let trace := trace ++ [EvSleep 250] in
    match replies with
    | [] => None
    | reply :: replies =>
        let trace := trace ++ [EvGetFunction functionName] in
        match reply with
        | Err e => Some (Some e, trace, replies)
        | OK function =>
            poll functionName (LastUpdateStatus function)
                 (LastUpdateStatusReason function) replies trace
        end
    end
  else Some (None, trace, replies).

(** The remote side of a deploy. *)
Record Service : Type := mkService {
  LoadDefaultConfig : option error;
  UpdateFunctionCode : string -> list Entry -> res UpdateFunctionCodeOutput;
  GetFunction : list (res FunctionConfiguration)
}.

(** [func updateFunctionCode(functionName, exePath string, args []string) error] *)
Definition updateFunctionCode (fsys : FileSystem)
    (svc : Service) (functionName exePath : string) (args : list string)
    : option (option error * list Event * list (res FunctionConfiguration)) :=
  (* bytes.Buffer accepts every write *)
  let '(err, buffer) := compressExeAndArgs fsys [] exePath args in
  match err with
  | Some e => Some (Some e, [], GetFunction svc)
  | None =>
      match LoadDefaultConfig svc with
      | Some e => Some (Some e, [], GetFunction svc)
      | None =>
          let trace := [EvUpdateFunctionCode functionName (entries buffer)] in
          match UpdateFunctionCode svc functionName (entries buffer) with
          | Err e => Some (Some e, trace, GetFunction svc)
          | OK updateResponse =>
              poll functionName (upd_LastUpdateStatus updateResponse)
                   (upd_StateReason updateResponse) (GetFunction svc) trace
          end
      end
  end.

(** The status lines in a trace and the number of status fetches. *)
Definition reports (trace : list Event) : list string :=
  omap (fun ev => match ev with EvLog line => Some line | _ => None end) trace.

Definition isFetch (ev : Event) : bool :=
  match ev with EvGetFunction _ => true | _ => false end.

Definition fetches (trace : list Event) : nat :=
  length (List.filter isFetch trace).

End BuildLambdaZip.

(** ** lambda/messages *)
Module Messages.

(** [reflect.Type] as far as [Kind() == reflect.Ptr], [Elem()] and
    [Name()] see it: the name of a defined type ([""] for any other) and,
    for a pointer type, its element type. *)
Inductive rtype : Type :=
| RType (name : string) (elem : option rtype).

Definition Name (t : rtype) : string :=
  match t with RType name _ => name end.

Definition Elem (t : rtype) : option rtype :=
  match t with RType _ elem => elem end.

(** [func getErrorType(err interface{}) string], on [reflect.TypeOf(err)]. *)
Definition getErrorType (errorType : rtype) : string :=
  match Elem errorType with
  | Some elem => Name elem
  | None => Name errorType
  end.

(** [InvokeResponse_Error_StackFrame] and [InvokeResponse_Error]
    (declared in messages.go), with the fields errors.go sets. *)
Record InvokeResponse_Error_StackFrame : Type := mkStackFrame {
  Path : string;
  Line : Z;
  Label : string
}.

Record InvokeResponse_Error : Type := mkInvokeResponse_Error {
  Message : string;
  Type_ : string;
  StackTrace : list InvokeResponse_Error_StackFrame;
  ShouldExit : bool
}.

(** Pointers to [InvokeResponse_Error]: [None] is the nil pointer. *)
Definition loc := nat.
Definition pointer := option loc.
Abbreviation heap := (gmap loc InvokeResponse_Error).

(** A value of interface type [error], by dynamic type. *)
Inductive error_value : Type :=
| ErrNil                                        (* the nil interface *)
| ErrValue (ive : InvokeResponse_Error)         (* an InvokeResponse_Error *)
| ErrPointer (p : pointer)                      (* an *InvokeResponse_Error, possibly a nil pointer *)
| ErrOther (errorType : rtype) (msg : string)   (* any other type; msg is what its Error() returns *).

(** [&v]: a new object holding [v]. *)
Definition alloc (v : InvokeResponse_Error) (h : heap) : pointer * heap :=
  let l := fresh (dom h) in (Some l, <[l := v]> h).

(** [func FromError(err error) *InvokeResponse_Error] *)
Definition FromError (err : error_value) (h : heap) : pointer * heap :=
  match err with
  | ErrNil => (None, h)
  | ErrValue ive => alloc ive h
  | ErrPointer ive => (ive, h)
  | ErrOther errorType msg =>
      let errorName :=
        match Elem errorType with
        | Some elem => Name elem
        | None => Name errorType
        end in
      alloc {| Message := msg; Type_ := errorName;
               StackTrace := []; ShouldExit := false |} h
  end.

(** The object a returned pointer designates. *)
Definition load (p : pointer) (h : heap) : option InvokeResponse_Error :=
  match p with
  | None => None
  | Some l => h !! l
  end.

End Messages.

(** ** unicode/utf8 and strings *)
Module Strings.

Definition byteval (c : ascii) : Z := Z.of_N (N_of_ascii c).

Definition between (lo hi : Z) (c : ascii) : bool :=
  (lo <=? byteval c) && (byteval c <=? hi).

(** The [first] table of unicode/utf8 with its accept ranges: for a
    leading byte, the length of the sequence and the range of the second
    byte; [None] for a byte that starts no sequence. *)
Definition first (c : ascii) : option (nat * Z * Z) :=
  let x := byteval c in
  if x <? 0x80 then Some (1%nat, 0, 0)
  else if x <? 0xC2 then None
  else if x <=? 0xDF then Some (2%nat, 0x80, 0xBF)
  else if x =? 0xE0 then Some (3%nat, 0xA0, 0xBF)
  else if x =? 0xED then Some (3%nat, 0x80, 0x9F)
  else if x <=? 0xEF then Some (3%nat, 0x80, 0xBF)
  else if x =? 0xF0 then Some (4%nat, 0x90, 0xBF)
  else if x <=? 0xF3 then Some (4%nat, 0x80, 0xBF)
  else if x =? 0xF4 then Some (4%nat, 0x80, 0x8F)
  else None.

Definition continuation (c : ascii) : bool := between 0x80 0xBF c.

(** [utf8.DecodeRuneInString]: the width of the well-formed encoding at
    the head of [s], [0] when there is none ([RuneError] of width 1). *)
Definition decodeWidth (s : string) : nat :=
  match s with
  | EmptyString => 0
  | String c0 r0 =>
      match first c0 with
      | None => 0
      | Some (1%nat, _, _) => 1
      | Some (n, lo, hi) =>
          match r0 with
          | String c1 r1 =>
              if between lo hi c1 then
                match n, r1 with
                | 2%nat, _ => 2
                | 3%nat, String c2 _ => if continuation c2 then 3 else 0
                | 4%nat, String c2 (String c3 _) =>
                    if continuation c2 && continuation c3 then 4 else 0
                | _, _ => 0
                end
              else 0
          | EmptyString => 0
          end
      end
  end%nat.

(** U+FFFD in UTF-8. *)
Definition replacementChar : string :=
  String "239" (String "191" (String "189" EmptyString)).

(** A string coerced to valid UTF-8: every byte that is not part of a
    well-formed sequence becomes U+FFFD.  [pending] counts the bytes
    left of the sequence being copied. *)
Fixpoint coerce (pending : nat) (s : string) : string :=
  match s with
  | EmptyString => EmptyString
  | String c rest =>
      match pending with
      | S k => String c (coerce k rest)
      | O =>
          match decodeWidth s with
          | O => replacementChar +:+ coerce 0 rest
          | S k => String c (coerce k rest)
          end
      end
  end.

Definition ToValidUTF8 (s : string) : string := coerce 0 s.

(** [utf8.ValidString]. *)
Fixpoint valid (pending : nat) (s : string) : bool :=
  match s with
  | EmptyString => true
  | String c rest =>
      match pending with
      | S k => valid k rest
      | O =>
          match decodeWidth s with
          | O => false
          | S k => valid k rest
          end
      end
  end.

Definition ValidString (s : string) : bool := valid 0 s.

(** [strings.Join(elems, sep)]. *)
Fixpoint Join (elems : list string) (sep : string) : string :=
  match elems with
  | [] => EmptyString
  | [x] => x
  | x :: rest => x +:+ sep +:+ Join rest sep
  end.

(** [strings.Split(s, sep)] for a one-byte separator: the substrings
    between the separators, a single (possibly empty) one when [s] has no
    separator. *)
Fixpoint Split (s : string) (sep : ascii) : list string :=
  match s with
  | EmptyString => [EmptyString]
  | String c rest =>
      if Ascii.eqb c sep then EmptyString :: Split rest sep
      else match Split rest sep with
           | x :: xs => String c x :: xs
           | [] => [String c EmptyString]
           end
  end.

(** [strings.ContainsRune(s, c)] for a one-byte [c]. *)
Fixpoint Contains (s : string) (c : ascii) : bool :=
  match s with
  | EmptyString => false
  | String c' rest => Ascii.eqb c' c || Contains rest c
  end.

End Strings.

(** ** events: Lambda function URL headers and query parameters *)
Module Events.
Import Strings.

(** A JSON text as encoding/json writes and reads it, by value.  A
    string is held decoded; escapes are undone by the reader and do not
    appear.  Object members keep their order. *)
Inductive JSON : Type :=
| JNull
| JBool (b : bool)
| JNumber (literal : string)
| JString (s : string)
| JArray (elems : list JSON)
| JObject (members : list (string * JSON)).

(** [json.Marshal] of a Go string: "String values encode as JSON strings
    coerced to valid UTF-8, replacing invalid bytes with the Unicode
    replacement rune." *)
Definition marshalString (s : string) : JSON := JString (ToValidUTF8 s).

(** [json.Unmarshal] into a [string]: the string, invalid UTF-8 replaced
    likewise; [null] leaves the target as it is; anything else is an
    [UnmarshalTypeError]. *)
Definition unmarshalString (b : JSON) (s : string) : res string :=
  match b with
  | JString v => OK (ToValidUTF8 v)
  | JNull => OK s
  | _ => Err "json: cannot unmarshal into Go value of type string"
  end.

Definition comma : ascii := ",".

(** [type commaSeperatedValues []string] *)
Abbreviation commaSeperatedValues := (list string).

(** [func (c *commaSeperatedValues) UnmarshalJSON(b []byte) error] *)
Definition commaSeperatedValues_UnmarshalJSON (b : JSON) : res commaSeperatedValues :=
  match unmarshalString b EmptyString with
  | Err e => Err e
  | OK s => OK (Split s comma)
  end.

(** [func (c commaSeperatedValues) MarshalJSON() ([]byte, error)] *)
Definition commaSeperatedValues_MarshalJSON (c : commaSeperatedValues) : res JSON :=
  OK (marshalString (Join c ",")).

(** Maps are modelled by their bindings. *)
Abbreviation intermediate_map := (gmap string commaSeperatedValues).

Definition key_le (x y : string * commaSeperatedValues) : Prop :=
  String.leb x.1 y.1 = true.

#[export] Instance key_le_dec x y : Decision (key_le x y).
Proof. unfold key_le. apply _. Defined.

(** [json.Marshal] of a [map[string]commaSeperatedValues]: an object
    with the keys in sorted order, each value written by its
    [MarshalJSON]. *)
Fixpoint marshalMembers (kvs : list (string * commaSeperatedValues))
    : res (list (string * JSON)) :=
  match kvs with
  | [] => OK []
  | (k, v) :: rest =>
      match commaSeperatedValues_MarshalJSON v with
      | Err e => Err e
      | OK j =>
          match marshalMembers rest with
          | Err e => Err e
          | OK members => OK ((ToValidUTF8 k, j) :: members)
          end
      end
  end.

Definition marshalMap (m : intermediate_map) : res JSON :=
  match marshalMembers (merge_sort key_le (map_to_list m)) with
  | Err e => Err e
  | OK members => OK (JObject members)
  end.

(** [json.Unmarshal] into a [map[string]commaSeperatedValues]: the
    members are stored in order, a repeated key keeping its last value;
    [null] stores nothing. *)
Fixpoint unmarshalMembers (members : list (string * JSON)) (m : intermediate_map)
    : res intermediate_map :=
  match members with
  | [] => OK m
  | (k, j) :: rest =>
      match commaSeperatedValues_UnmarshalJSON j with
      | Err e => Err e
      | OK v => unmarshalMembers rest (<[ToValidUTF8 k := v]> m)
      end
  end.

Definition unmarshalMap (b : JSON) : res intermediate_map :=
  match b with
  | JNull => OK ∅
  | JObject members => unmarshalMembers members ∅
  | _ => Err "json: cannot unmarshal into Go value of type map[string]events.commaSeperatedValues"
  end.

(** [for k, v := range src { dst[k] = v }] into an empty map. *)
Definition copyMap (src : intermediate_map) : intermediate_map :=
  map_fold (fun k v dst => <[k := v]> dst) ∅ src.

(** [type functionURLHeaders http.Header] *)
Abbreviation functionURLHeaders := (gmap string (list string)).

(** [func (f *functionURLHeaders) UnmarshalJSON(b []byte) error]: the
    new value of [*f], or the error. *)
Definition functionURLHeaders_UnmarshalJSON (b : JSON) : res functionURLHeaders :=
  match unmarshalMap b with
  | Err e => Err e
  | OK intermediate => OK (copyMap intermediate)
  end.

(** [func (f functionURLHeaders) MarshalJSON() ([]byte, error)] *)
Definition functionURLHeaders_MarshalJSON (f : functionURLHeaders) : res JSON :=
  let intermediate := copyMap f in
  marshalMap intermediate.

(** [type functionURLValues url.Values] *)
Abbreviation functionURLValues := (gmap string (list string)).

(** [func (f *functionURLValues) UnmarshalJSON(b []byte) error] *)
Definition functionURLValues_UnmarshalJSON (b : JSON) : res functionURLValues :=
  match unmarshalMap b with
  | Err e => Err e
  | OK intermediate => OK (copyMap intermediate)
  end.

(** [func (f functionURLValues) MarshalJSON() ([]byte, error)] *)
Definition functionURLValues_MarshalJSON (f : functionURLValues) : res JSON :=
  let intermediate := copyMap f in
  marshalMap intermediate.

End Events.

(** ** Concrete inputs, and the statements that are examined as written *)
Module Scenarios.
Import Zip BuildLambdaZip.

(** A working directory holding an executable [build/handler], a second
    one named [bootstrap], and a data file [config.json]. *)
Definition sample_read (path : string) : res (list byte) :=
  if endsWithSlash path then Err "is a directory"
  else if String.eqb path "build/handler" then OK [x7f; x45; x4c; x46]%byte
  else if String.eqb path "bootstrap" then OK [x7f; x45; x4c; x46; x02]%byte
  else if String.eqb path "config.json" then OK [x7b; x7d]%byte
  else Err "no such file or directory".

Definition sample_fs : FileSystem.
Proof.
  refine {| ReadFile := sample_read |}.
  intros path Hdir. exists "is a directory".
  unfold sample_read. rewrite Hdir. reflexivity.
Defined.

(** [os.Create] succeeding with a file that accepts every write. *)
Definition sample_create (path : string) : res (list (option error)) := OK [].

(** The link entry's mode as the specification words it: read, write and
    execute for owner, group and other, with the link bit. *)
Definition link_mode_all_classes : Prop :=
  forall (fsys : FileSystem) zipFile exePath args w link,
    Filepath.Base exePath <> bootstrap ->
    compressExeAndArgs fsys zipFile exePath args = (None, w) ->
    In link (entries w) ->
    isSymlink link = true ->
    Mode (header link) = Z.lor o0777 ModeSymlink.

(** A failed read as the specification words it: an error, no entry
    produced, and no file left by the write-to-file path. *)
Definition failed_read_emits_nothing : Prop :=
  forall (fsys : FileSystem) Create_file outZipPath zipFile exePath args,
    unreadable fsys exePath \/ Exists (unreadable fsys) args ->
    Create_file outZipPath = OK zipFile ->
    fst (compressExeAndArgs fsys zipFile exePath args) <> None /\
    entries (snd (compressExeAndArgs fsys zipFile exePath args)) = [] /\
    snd (compressExeAndArgsToFile fsys Create_file outZipPath exePath args) = None.

End Scenarios.

(** ** Statuses observed during a deploy *)
Module Observed.
Import Zip BuildLambdaZip.

(** The status and reason of the update response, as the first
    observation. *)
Definition initial (updateResponse : UpdateFunctionCodeOutput) : FunctionConfiguration :=
  {| LastUpdateStatus := upd_LastUpdateStatus updateResponse;
     LastUpdateStatusReason := upd_StateReason updateResponse |}.

Definition statusLine (c : FunctionConfiguration) : string :=
  report (LastUpdateStatus c) (LastUpdateStatusReason c).

(** One turn of the loop on a status that is in progress. *)
Definition waiting (functionName : string) (c : FunctionConfiguration) : list Event :=
  [EvLog (statusLine c); EvSleep 250; EvGetFunction functionName].

(** The events of a loop that sees the statuses [pre], then [t]. *)
Definition pollEvents (functionName : string) (pre : list FunctionConfiguration)
    (t : FunctionConfiguration) : list Event :=
  concat (map (waiting functionName) pre) ++ [EvLog (statusLine t)].

Definition inProgress (c : FunctionConfiguration) : Prop :=
  LastUpdateStatus c = LastUpdateStatusInProgress.

(** A service whose update is in progress for two observations and then
    successful; the later reply is never fetched. *)
Definition sample_service : Service :=
  {| LoadDefaultConfig := None;
     UpdateFunctionCode := fun _ _ =>
       OK {| upd_LastUpdateStatus := "InProgress"; upd_StateReason := None |};
     GetFunction :=
       [ OK {| LastUpdateStatus := "InProgress";
               LastUpdateStatusReason := Some "The function is being updated." |};
         OK {| LastUpdateStatus := "Successful"; LastUpdateStatusReason := None |};
         OK {| LastUpdateStatus := "Failed"; LastUpdateStatusReason := None |} ] |}.

(** The polling sequence in progress, in progress, successful. *)
Definition scenario_service : Service :=
  {| LoadDefaultConfig := None;
     UpdateFunctionCode := fun _ _ =>
       OK {| upd_LastUpdateStatus := "InProgress"; upd_StateReason := None |};
     GetFunction :=
       [ OK {| LastUpdateStatus := "InProgress"; LastUpdateStatusReason := None |};
         OK {| LastUpdateStatus := "Successful"; LastUpdateStatusReason := None |} ] |}.

(** A service that settles on a failure status; a further fetch would
    fail. *)
Definition failing_update_service : Service :=
  {| LoadDefaultConfig := None;
     UpdateFunctionCode := fun _ _ =>
       OK {| upd_LastUpdateStatus := "InProgress"; upd_StateReason := None |};
     GetFunction :=
       [ OK {| LastUpdateStatus := "Failed";
               LastUpdateStatusReason := Some "InvalidImage" |};
         Err "RequestError: send request failed" ] |}.

(** A service whose update request fails in transport. *)
Definition unreachable_service : Service :=
  {| LoadDefaultConfig := None;
     UpdateFunctionCode := fun _ _ => Err "RequestError: send request failed";
     GetFunction :=
       [ OK {| LastUpdateStatus := "Successful"; LastUpdateStatusReason := None |} ] |}.

End Observed.

(** ** Statements about messages and events examined as written *)
Module Worded.

(** [FromError] as the specification words its first part: nil exactly
    for a nil argument. *)
Definition FromError_nil_only_for_nil : Prop :=
  forall err h, fst (Messages.FromError err h) = None <-> err = Messages.ErrNil.

(** No comma in the string. *)
Definition plain (s : string) : Prop := Strings.Contains s Events.comma = false.

(** Every value list is non-empty and none of its elements has a comma. *)
Definition joinable (f : gmap string (list string)) : Prop :=
  forall k l, f !! k = Some l -> l <> [] /\ Forall plain l.

(** Every key and every element is valid UTF-8. *)
Definition utf8 (f : gmap string (list string)) : Prop :=
  forall k l, f !! k = Some l ->
    Strings.ValidString k = true /\
    Forall (fun s => Strings.ValidString s = true) l.

(** The round trip as the specification words it. *)
Definition roundtrip_of_joinable : Prop :=
  forall f, joinable f ->
    (exists j, Events.functionURLHeaders_MarshalJSON f = OK j /\
               Events.functionURLHeaders_UnmarshalJSON j = OK f) /\
    (exists j, Events.functionURLValues_MarshalJSON f = OK j /\
               Events.functionURLValues_UnmarshalJSON j = OK f).

(** What [json.Marshal] writes for a binding of the map, and the member
    with the values joined by commas. *)
Definition written (kv : string * list string) : string * Events.JSON :=
  (Strings.ToValidUTF8 kv.1,
   Events.JString (Strings.ToValidUTF8 (Strings.Join kv.2 ","))).

Definition joined (kv : string * list string) : string * Events.JSON :=
  (kv.1, Events.JString (Strings.Join kv.2 ",")).

(** A binding with a valid key and a non-empty list of valid, comma-free
    elements. *)
Definition sound (kv : string * list string) : Prop :=
  Strings.ValidString kv.1 = true /\
  Forall (fun s => Strings.ValidString s = true) kv.2 /\
  kv.2 <> [] /\ Forall plain kv.2.

Definition sample_headers : gmap string (list string) :=
  {[ "x-forwarded-for" := ["203.0.113.7"; "10.0.0.1"]; "accept" := ["*/*"] ]}.

(** A header value in ISO-8859-1: "caf" and the byte 0xE9. *)
Definition latin1_headers : gmap string (list string) :=
  {[ "x-name" := [String "c" (String "a" (String "f" (String "233" EmptyString)))] ]}.

End Worded.

(** ** path/filepath.Ext and the command line of build-lambda-zip *)
Module Cli.
Import Zip BuildLambdaZip.

(** [filepath.Ext]: the suffix beginning at the final dot in the final
    element of the path; empty if there is no dot. *)
Fixpoint Ext (path : string) : string :=
  match path with
  | EmptyString => EmptyString
  | String c rest =>
      match Ext rest with
      | EmptyString =>
          if Filepath.hasSeparator rest then EmptyString
          else if Ascii.eqb c "." then String c rest
          else EmptyString
      | ext => ext
      end
  end.

(** What [main] runs against: the environment, [cmd.Run], the file system
    as the packaging step reads it (after the compiler has run, when it
    does), [os.Create], the remote service and [os.Remove]. *)
Record World : Type := mkWorld {
  Environ : list string;
  Run : Exec.Cmd -> option error;
  Files : FileSystem;
  CreateFile : string -> res (list (option error));
  Remote : Service;
  Remove : string -> option error
}.

(** What an invocation does, in order. *)
Inductive Step : Type :=
| Compiled (cmd : Exec.Cmd)
| Logged (line : string)
| Packaged (file : option (string * Writer))
| Deployed (trace : list Event)
| Removed (path : string).

(** The function deferred after a successful compile. *)
Definition cleanup (world : World) (builtExePath : string) : list Step :=
  [Logged ("removing intermediate file " +:+ builtExePath); Removed builtExePath]
  ++ match Remove world builtExePath with
     | Some e => [Logged ("cleanup of " +:+ builtExePath +:+ " failed: " +:+ e)]
     | None => []
     end.

(** The two ways out of [main]'s last [if], given the executable to pack
    and the steps deferred.  [log.Fatalf] exits with status 1 and runs no
    deferred function.  The result is [None] when the deploy's polling has
    no end in the scripted replies. *)
Definition package (world : World) (outputZip functionName inputExe : string)
    (args : list string) (deferred : list Step) : option (Z * list Step) :=
  if String.eqb functionName EmptyString then
    let '(err, file) :=
      compressExeAndArgsToFile (Files world) (CreateFile world) outputZip inputExe args in
    match err with
    | Some e => Some (1, [Packaged file; Logged ("failed to compress file: " +:+ e)])
    | None => Some (0, [Packaged file; Logged ("wrote " +:+ outputZip)] ++ deferred)
    end
  else
    match updateFunctionCode (Files world) (Remote world) functionName inputExe args with
    | None => None
    | Some (Some e, trace, _) =>
        Some (1, [Deployed trace; Logged ("failed to update function code: " +:+ e)])
    | Some (None, trace, _) =>
        Some (0, [Deployed trace; Logged ("updated function code for " +:+ functionName)]
                 ++ deferred)
    end.

(** [func main()], after [flag.Parse]: [outputZip] and [functionName] are
    the flag values, [Args] is [flag.Args()].  The result is the exit
    status and the steps taken. *)
Definition main (world : World) (outputZip functionName : string)
    (Args : list string) : option (Z * list Step) :=
  match Args with
  | [] => Some (1, [Logged "no input provided"])
  | inputExe :: args =>
      let outputZip :=
        if String.eqb outputZip EmptyString then Filepath.Base inputExe +:+ ".zip"
        else outputZip in
      if String.eqb (Ext inputExe) ".go" then
        let '(builtExePath, err) := goBuild (Environ world) (Run world) inputExe in
        let compiled := Compiled (goBuild_cmd (Environ world) inputExe) in
        match err with
        | Some e =>
            Some (1, [compiled;
                      Logged ("failed to compile .go file " +:+ inputExe +:+ ": " +:+ e)])
        | None =>
            let steps :=
              [compiled; Logged ("compiled " +:+ inputExe +:+ " to " +:+ builtExePath)] in
            match package world outputZip functionName builtExePath args
                          (cleanup world builtExePath) with
            | None => None
            | Some (status, later) => Some (status, steps ++ later)
            end
        end
      else package world outputZip functionName inputExe args []
  end.

(** What a list of steps contains. *)
Definition isCompiled (s : Step) : bool :=
  match s with Compiled _ => true | _ => false end.
Definition isPackaged (s : Step) : bool :=
  match s with Packaged _ => true | _ => false end.
Definition isDeployed (s : Step) : bool :=
  match s with Deployed _ => true | _ => false end.
Definition isRemoved (s : Step) : bool :=
  match s with Removed _ => true | _ => false end.

Definition count (p : Step -> bool) (steps : list Step) : nat :=
  length (List.filter p steps).

(** The zip files the steps left behind. *)
Definition zipPaths (steps : list Step) : list string :=
  omap (fun s => match s with Packaged (Some (path, _)) => Some path | _ => None end) steps.

(** A world where the compiler succeeds, every file can be created and
    removed, and the files are those of [sample_fs] together with the
    compiled [main.go.exe]. *)
Definition sample_world_read (path : string) : res (list byte) :=
  if String.eqb path "main.go.exe" then OK [x7f; x45; x4c; x46; x01]%byte
  else ReadFile Scenarios.sample_fs path.

Definition sample_world_fs : FileSystem.
Proof.
  refine {| ReadFile := sample_world_read |}.
  intros path Hdir. unfold sample_world_read.
  destruct (String.eqb path "main.go.exe") eqn:Hp.
  - apply String.eqb_eq in Hp. subst path. discriminate Hdir.
  - exact (ReadFile_directory Scenarios.sample_fs path Hdir).
Defined.

Definition sample_world : World :=
  {| Environ := ["HOME=/home/dev"];
     Run := fun _ => None;
     Files := sample_world_fs;
     CreateFile := Scenarios.sample_create;
     Remote := Observed.scenario_service;
     Remove := fun _ => None |}.

(** The same world with a compiler that fails. *)
Definition broken_compiler_world : World :=
  {| Environ := ["HOME=/home/dev"];
     Run := fun _ => Some "exit status 2";
     Files := sample_world_fs;
     CreateFile := Scenarios.sample_create;
     Remote := Observed.scenario_service;
     Remove := fun _ => None |}.

End Cli.

(** ** lambda/messages: FromRecover *)
Module Recover.
Import Messages.

(** What [getPanicInfo] (declared outside errors.go) returns. *)
Record panicInfo : Type := mkPanicInfo {
  pi_Message : string;
  pi_StackTrace : list InvokeResponse_Error_StackFrame
}.

(** [func FromRecover(err interface{}) *InvokeResponse_Error], over the
    [getPanicInfo] it calls.  The recovered value is any value of interface
    type, by dynamic type as for [error]. *)
Definition FromRecover (getPanicInfo : error_value -> panicInfo)
    (err : error_value) (h : heap) : pointer * heap :=
  match err with
  | ErrNil => (None, h)
  | ErrValue ive => alloc ive h
  | ErrPointer ive => (ive, h)
  | ErrOther errorType _ =>
      let info := getPanicInfo err in
      alloc {| Message := pi_Message info;
               Type_ := getErrorType errorType;
               StackTrace := pi_StackTrace info;
               ShouldExit := true |} h
  end.

(** A [getPanicInfo] for the examples: the message of the value and one
    frame. *)
Definition sample_getPanicInfo (v : error_value) : panicInfo :=
  {| pi_Message := match v with ErrOther _ msg => msg | _ => EmptyString end;
     pi_StackTrace := [ {| Path := "main.go"; Line := 12; Label := "handler" |} ] |}.

End Recover.

(** ** JSON values a header or query-parameter value can be read from *)
Module Shapes.

(** A JSON string or [null]. *)
Definition stringOrNull (b : Events.JSON) : bool :=
  match b with
  | Events.JString _ | Events.JNull => true
  | _ => false
  end.

(** A JSON object or [null]. *)
Definition objectOrNull (b : Events.JSON) : bool :=
  match b with
  | Events.JObject _ | Events.JNull => true
  | _ => false
  end.

(** The members of a JSON object. *)
Definition members (b : Events.JSON) : list (string * Events.JSON) :=
  match b with
  | Events.JObject ms => ms
  | _ => []
  end.

End Shapes.

(** Case analysis on everything a goal matches on, dropping the cases
    that are contradictory. *)
Ltac split_match :=
  repeat match goal with
         | |- context [match ?x with _ => _ end] => destruct x; simpl; try discriminate
         end.

(** * Properties *)

(** ** Base names *)
Module FilepathFacts.
Import Filepath.

Lemma endsWithSlash_hasSeparator s :
  endsWithSlash s = true -> hasSeparator s = true.
Proof.
  induction s as [|c [|c' rest] IH]; simpl in *; [done| |].
  - unfold isPathSeparator. intros ->. done.
  - intros H. rewrite (IH H). apply orb_true_r.
Qed.

Lemma lastElement_no_separator s : hasSeparator (lastElement s) = false.
Proof.
  induction s as [|c rest IH]; simpl; [done|].
  destruct (hasSeparator rest) eqn:Hrest; [done|].
  destruct (isPathSeparator c) eqn:Hc; [done|].
  simpl. by rewrite Hc, Hrest.
Qed.

Lemma lastElement_empty s :
  lastElement s = EmptyString -> s = EmptyString \/ endsWithSlash s = true.
Proof.
  induction s as [|c rest IH]; simpl; [by left|].
  destruct (hasSeparator rest) eqn:Hrest.
  - intros H. destruct (IH H) as [->|Hs]; [done|].
    right. destruct rest; [done|exact Hs].
  - destruct (isPathSeparator c) eqn:Hc; [|done].
    intros ->. by right.
Qed.

Lemma stripTrailingSlashes_trimmed s :
  endsWithSlash (stripTrailingSlashes s) = false.
Proof.
  induction s as [|c rest IH]; simpl; [done|].
  destruct (stripTrailingSlashes rest) as [|c' rest'] eqn:Hs.
  - destruct (isPathSeparator c) eqn:Hc; [done|]. exact Hc.
  - exact IH.
Qed.

Lemma stripTrailingSlashes_empty s :
  stripTrailingSlashes s = EmptyString -> s = EmptyString \/ endsWithSlash s = true.
Proof.
  induction s as [|c rest IH]; simpl; [by left|].
  destruct (stripTrailingSlashes rest) as [|c' rest'] eqn:Hs; [|done].
  destruct (isPathSeparator c) eqn:Hc; [|done].
  intros _. right. destruct (IH eq_refl) as [->|Hr]; [exact Hc|].
  destruct rest; [done|exact Hr].
Qed.

(** A base name ends in a separator only for a path that does. *)
Lemma Base_endsWithSlash path :
  endsWithSlash (Base path) = true -> endsWithSlash path = true.
Proof.
  unfold Base. destruct path as [|c rest]; [done|].
  destruct (lastElement (stripTrailingSlashes (String c rest))) as [|c' elem] eqn:Hl.
  - intros _. apply lastElement_empty in Hl as [Hl|Hl].
    + by apply stripTrailingSlashes_empty in Hl as [Hl|Hl].
    + by rewrite stripTrailingSlashes_trimmed in Hl.
  - intros H. apply endsWithSlash_hasSeparator in H.
    by rewrite <- Hl, lastElement_no_separator in H.
Qed.

End FilepathFacts.

(** ** The archive builder *)
Module ArchiveFacts.
Import Zip BuildLambdaZip.

Lemma readable_not_directory fsys path :
  readable fsys path -> endsWithSlash path = false.
Proof.
  intros [data Hr]. destruct (endsWithSlash path) eqn:Hs; [|done].
  destruct (ReadFile_directory fsys path Hs) as [e He]. congruence.
Qed.

Lemma CreateHeader_inv fh w r w' :
  CreateHeader fh w = (r, w') ->
  closed w' = closed w /\
  ((exists e, r = Err e /\ entries w' = entries w) \/
   (r = OK (length (entries w)) /\
    entries w' = entries w ++ [ {| header := stamp fh; body := [] |} ])).
Proof.
  unfold CreateHeader, io.
  destruct (faults w) as [|[e|] script]; intros H; inversion H; subst; simpl; eauto.
Qed.

Lemma alter_last (e : Entry) f (l : list Entry) :
  alter f (length l) (l ++ [e]) = l ++ [f e].
Proof. induction l; simpl; [reflexivity|]. f_equal. apply IHl. Qed.

Lemma isDirectory_last l e w :
  entries w = l ++ [e] ->
  isDirectory (length l) w = endsWithSlash (Name (header e)).
Proof.
  intros Hl. unfold isDirectory. rewrite Hl.
  by rewrite lookup_app_r, Nat.sub_diag by lia.
Qed.

Lemma Write_last_inv l e data w r w' :
  entries w = l ++ [e] ->
  Write (length l) data w = (r, w') ->
  closed w' = closed w /\
  ((exists err, r = Err err /\ entries w' = entries w) \/
   ((exists n, r = OK n) /\ entries w' = l ++ [appendBody data e])).
Proof.
  intros Hl. unfold Write, io. rewrite (isDirectory_last l e w Hl).
  destruct (endsWithSlash (Name (header e))).
  - destruct data; intros H; inversion H; subst; eauto.
    split; [done|]. right. split; [eauto|].
    rewrite Hl. unfold appendBody. rewrite app_nil_r. by destruct e.
  - assert (Hc : (S (length l) =? length (entries w))%nat = true).
    { apply Nat.eqb_eq. rewrite Hl, length_app. simpl. lia. }
    rewrite Hc.
    destruct (faults w) as [|[err|] script]; intros H; inversion H; subst; simpl;
      rewrite ?Hl, ?alter_last; eauto.
Qed.

(** What an entry written in one go leaves in the archive. *)
Lemma putEntry_inv fh data w r w' :
  putEntry fh data w = (r, w') ->
  closed w' = closed w /\
  match r with
  | OK _ => entries w' = entries w ++ [ {| header := stamp fh; body := data |} ]
  | Err _ => entries w' = entries w \/
             entries w' = entries w ++ [ {| header := stamp fh; body := [] |} ]
  end.
Proof.
  unfold putEntry, bind.
  destruct (CreateHeader fh w) as [[h|e] w1] eqn:H1;
    apply CreateHeader_inv in H1 as [Hc1 [(e' & He & H1)|[He H1]]]; try discriminate.
  - injection He as ->.
    destruct (Write _ data w1) as [[n|e] w2] eqn:H2;
      eapply Write_last_inv in H2 as [Hc2 [(e' & He & H2)|[[n' He] H2]]];
      eauto; try discriminate.
    + unfold ret. intros H; inversion H; subst. split; [congruence|]. by rewrite H2.
    + intros H; inversion H; subst. split; [congruence|]. right. by rewrite H2, H1.
  - intros H; inversion H; subst. split; [done|]. by left.
Qed.

Lemma writeExe_unfold pathInZip data :
  writeExe pathInZip data =
  bind (if String.eqb pathInZip bootstrap then ret tt
        else putEntry (SetMode (newHeader bootstrap Deflate) (Z.lor o0755 ModeSymlink))
                      (bytes pathInZip))
       (fun _ => putEntry {| CreatorVersion := Z.shiftl 3 8;
                             ExternalAttrs := Z.shiftl o0777 16;
                             Name := pathInZip; Method := Deflate |} data).
Proof. reflexivity. Qed.

Lemma writeExe_ok pathInZip data w w' :
  writeExe pathInZip data w = (OK tt, w') ->
  closed w' = closed w /\
  entries w' = entries w ++ exeEntries pathInZip data.
Proof.
  rewrite writeExe_unfold. unfold bind, exeEntries.
  destruct (String.eqb pathInZip bootstrap).
  - unfold ret at 1. intros H. apply putEntry_inv in H as [Hc H]. by rewrite H.
  - destruct (putEntry _ (bytes pathInZip) w) as [[[]|e] w1] eqn:H1; [|discriminate].
    apply putEntry_inv in H1 as [Hc1 H1].
    intros H. apply putEntry_inv in H as [Hc H].
    split; [congruence|]. rewrite H, H1. by rewrite <- app_assoc.
Qed.

(** *** The loop over the auxiliary files *)

Lemma compressArgs_cons fsys arg rest :
  compressArgs fsys (arg :: rest) =
  bind (Create arg) (fun writer =>
    bind (lift (ReadFile fsys arg)) (fun data =>
      bind (Write writer data) (fun _ => compressArgs fsys rest))).
Proof. reflexivity. Qed.

Lemma compressArgs_ok fsys args :
  forall w w',
    compressArgs fsys args w = (OK tt, w') ->
    Forall (readable fsys) args /\
    closed w' = closed w /\
    entries w' = entries w ++ map (auxEntry fsys) args.
Proof.
  induction args as [|arg rest IH]; intros w w'.
  - simpl. unfold ret. intros H; inversion H; subst. by rewrite app_nil_r.
  - rewrite compressArgs_cons. unfold bind, Create, lift.
    destruct (CreateHeader _ w) as [[h|e] w1] eqn:H1; [|discriminate].
    apply CreateHeader_inv in H1 as [Hc1 [(e' & He & H1)|[He H1]]]; try discriminate.
    injection He as ->.
    destruct (ReadFile fsys arg) as [data|e] eqn:Hr; [|discriminate].
    destruct (Write _ data w1) as [[n|e] w2] eqn:H2; [|discriminate].
    eapply Write_last_inv in H2 as [Hc2 [(e' & He & H2)|[_ H2]]]; eauto; try discriminate.
    intros H. apply IH in H as (Hrest & Hc & H).
    split; [constructor; [by exists data|done]|].
    split; [congruence|].
    rewrite H, H2. simpl. rewrite <- app_assoc. simpl.
    unfold auxEntry at 2, contents, appendBody, auxHeader. simpl. by rewrite Hr.
Qed.

Lemma compressArgs_unreadable fsys args :
  Exists (unreadable fsys) args ->
  forall w, exists e w', compressArgs fsys args w = (Err e, w').
Proof.
  induction 1 as [arg rest [e He]|arg rest _ IH]; intros w;
    rewrite compressArgs_cons; unfold bind, Create, lift.
  - destruct (CreateHeader _ w) as [[h|e1] w1]; [rewrite He|]; eauto.
  - destruct (CreateHeader _ w) as [[h|e1] w1]; [|eauto].
    destruct (ReadFile fsys arg) as [data|e]; [|eauto].
    destruct (Write h data w1) as [[n|e] w2]; [|eauto].
    apply IH.
Qed.

(** *** Runs against a writer that accepts everything *)

Lemma CreateHeader_accepting fh w :
  accepting (faults w) ->
  exists w',
    CreateHeader fh w = (OK (length (entries w)), w') /\
    entries w' = entries w ++ [ {| header := stamp fh; body := [] |} ] /\
    closed w' = closed w /\ accepting (faults w').
Proof.
  unfold CreateHeader, io, accepting. intros Ha.
  destruct (faults w) as [|f script] eqn:Hf.
  - eexists. split; [reflexivity|]. simpl. by rewrite Hf.
  - inversion Ha; subst. eexists. split; [reflexivity|]. by simpl.
Qed.

Lemma Write_accepting l e data w :
  accepting (faults w) ->
  entries w = l ++ [e] ->
  endsWithSlash (Name (header e)) = false ->
  exists w',
    Write (length l) data w = (OK (length data), w') /\
    entries w' = l ++ [appendBody data e] /\
    closed w' = closed w /\ accepting (faults w').
Proof.
  unfold Write, io, accepting. intros Ha Hl Hd.
  rewrite (isDirectory_last l e w Hl), Hd.
  assert (Hc : (S (length l) =? length (entries w))%nat = true).
  { apply Nat.eqb_eq. rewrite Hl, length_app. simpl. lia. }
  rewrite Hc.
  destruct (faults w) as [|f script] eqn:Hf.
  - eexists. split; [reflexivity|]. simpl. by rewrite Hf, Hl, alter_last.
  - inversion Ha; subst. eexists. split; [reflexivity|]. simpl.
    by rewrite Hl, alter_last.
Qed.

Lemma putEntry_accepting fh data w :
  accepting (faults w) ->
  endsWithSlash (Name fh) = false ->
  exists w',
    putEntry fh data w = (OK tt, w') /\
    entries w' = entries w ++ [ {| header := stamp fh; body := data |} ] /\
    closed w' = closed w /\ accepting (faults w').
Proof.
  intros Ha Hd. unfold putEntry, bind.
  destruct (CreateHeader_accepting fh w Ha) as (w1 & -> & H1 & Hc1 & Ha1).
  destruct (Write_accepting _ _ data w1 Ha1 H1 Hd) as (w2 & -> & H2 & Hc2 & Ha2).
  exists w2. unfold ret. repeat split; try done; congruence.
Qed.

Lemma writeExe_accepting pathInZip data w :
  accepting (faults w) ->
  endsWithSlash pathInZip = false ->
  exists w',
    writeExe pathInZip data w = (OK tt, w') /\
    entries w' = entries w ++ exeEntries pathInZip data /\
    closed w' = closed w /\ accepting (faults w').
Proof.
  intros Ha Hd. rewrite writeExe_unfold. unfold bind, exeEntries.
  destruct (String.eqb pathInZip bootstrap).
  - unfold ret at 1. by apply putEntry_accepting.
  - destruct (putEntry_accepting
                (SetMode (newHeader bootstrap Deflate) (Z.lor o0755 ModeSymlink))
                (bytes pathInZip) w Ha eq_refl) as (w1 & -> & H1 & Hc1 & Ha1).
    destruct (putEntry_accepting
                {| CreatorVersion := Z.shiftl 3 8; ExternalAttrs := Z.shiftl o0777 16;
                   Name := pathInZip; Method := Deflate |} data w1 Ha1 Hd)
      as (w2 & -> & H2 & Hc2 & Ha2).
    exists w2. repeat split; try done; [|congruence].
    rewrite H2, H1. by rewrite <- app_assoc.
Qed.

Lemma compressArgs_accepting fsys args :
  Forall (readable fsys) args ->
  forall w, accepting (faults w) ->
    exists w',
      compressArgs fsys args w = (OK tt, w') /\
      entries w' = entries w ++ map (auxEntry fsys) args /\
      closed w' = closed w /\ accepting (faults w').
Proof.
  induction 1 as [|arg rest Harg _ IH]; intros w Ha.
  - exists w. simpl. unfold ret. by rewrite app_nil_r.
  - rewrite compressArgs_cons. unfold bind, Create, lift.
    destruct (CreateHeader_accepting (newHeader arg Deflate) w Ha)
      as (w1 & -> & H1 & Hc1 & Ha1).
    pose proof (readable_not_directory _ _ Harg) as Hd.
    destruct Harg as [data Hr]. rewrite Hr.
    destruct (Write_accepting _ _ data w1 Ha1 H1 Hd) as (w2 & -> & H2 & Hc2 & Ha2).
    destruct (IH w2 Ha2) as (w3 & -> & H3 & Hc3 & Ha3).
    exists w3. repeat split; try done; [|congruence].
    rewrite H3, H2. simpl. rewrite <- app_assoc. simpl.
    unfold auxEntry at 2, contents, appendBody, auxHeader. simpl. by rewrite Hr.
Qed.

(** The first auxiliary file that cannot be read stops the loop after its
    (empty) entry has been created. *)
Lemma compressArgs_first_unreadable fsys pre arg post e :
  Forall (readable fsys) pre ->
  ReadFile fsys arg = Err e ->
  forall w, accepting (faults w) ->
    exists w',
      compressArgs fsys (pre ++ arg :: post) w = (Err e, w') /\
      entries w' = entries w ++ map (auxEntry fsys) pre
                     ++ [ {| header := auxHeader arg; body := [] |} ].
Proof.
  intros Hpre He. induction Hpre as [|a rest Ha' _ IH]; intros w Ha.
  - simpl app. rewrite compressArgs_cons. unfold bind, Create, lift.
    destruct (CreateHeader_accepting (newHeader arg Deflate) w Ha)
      as (w1 & -> & H1 & Hc1 & Ha1).
    rewrite He. exists w1. split; [done|]. by rewrite H1.
  - simpl app. rewrite compressArgs_cons. unfold bind, Create, lift.
    destruct (CreateHeader_accepting (newHeader a Deflate) w Ha)
      as (w1 & -> & H1 & Hc1 & Ha1).
    pose proof (readable_not_directory _ _ Ha') as Hd.
    destruct Ha' as [data Hr]. rewrite Hr.
    destruct (Write_accepting _ _ data w1 Ha1 H1 Hd) as (w2 & -> & H2 & Hc2 & Ha2).
    destruct (IH w2 Ha2) as (w3 & -> & H3).
    exists w3. split; [done|].
    rewrite H3, H2. simpl. rewrite <- !app_assoc. simpl.
    unfold auxEntry at 2, contents, appendBody, auxHeader. simpl. by rewrite Hr.
Qed.

End ArchiveFacts.

(** ** The archives produced *)
Module ArchiveTheorems.
Import Zip BuildLambdaZip Scenarios ArchiveFacts.

Lemma Close_entries w : entries (snd (Close w)) = entries w.
Proof.
  unfold Close, io. destruct (closed w); [done|].
  by destruct (faults w) as [|f script].
Qed.

Lemma Close_closed w : closed (snd (Close w)) = true.
Proof.
  unfold Close, io. destruct (closed w) eqn:Hc; [done|].
  by destruct (faults w) as [|f script].
Qed.

(** A build that returns nil has read every input and written, in order,
    the entries of [writeExe] and one entry per auxiliary file. *)
Lemma compressExeAndArgs_nil fsys zipFile exePath args w :
  compressExeAndArgs fsys zipFile exePath args = (None, w) ->
  exists data,
    ReadFile fsys exePath = OK data /\
    Forall (readable fsys) args /\
    entries w = exeEntries (Filepath.Base exePath) data ++ map (auxEntry fsys) args.
Proof.
  unfold compressExeAndArgs, bind, lift.
  destruct (ReadFile fsys exePath) as [data|e] eqn:Hr; [|discriminate].
  destruct (writeExe _ data (NewWriter zipFile)) as [[[]|e] w1] eqn:H1; [|discriminate].
  apply writeExe_ok in H1 as [_ H1].
  destruct (compressArgs fsys args w1) as [[[]|e] w2] eqn:H2; [|discriminate].
  apply compressArgs_ok in H2 as (Hargs & _ & H2).
  intros H; inversion H; subst. exists data. repeat split; [done|].
  by rewrite Close_entries, H2, H1.
Qed.

(** With readable inputs and a writer that accepts everything the build
    returns nil. *)
Lemma compressExeAndArgs_succeeds fsys zipFile exePath args :
  readable fsys exePath ->
  Forall (readable fsys) args ->
  accepting zipFile ->
  fst (compressExeAndArgs fsys zipFile exePath args) = None.
Proof.
  intros Hexe Hargs Ha. unfold compressExeAndArgs, bind, lift.
  pose proof (readable_not_directory _ _ Hexe) as Hd.
  destruct Hexe as [data ->].
  destruct (writeExe_accepting (Filepath.Base exePath) data (NewWriter zipFile) Ha)
    as (w1 & -> & H1 & Hc1 & Ha1).
  { destruct (endsWithSlash (Filepath.Base exePath)) eqn:Hb; [|done].
    apply FilepathFacts.Base_endsWithSlash in Hb. congruence. }
  destruct (compressArgs_accepting fsys args Hargs w1 Ha1) as (w2 & -> & _).
  done.
Qed.

Lemma Mode_linkHeader : Mode linkHeader = Z.lor o0755 ModeSymlink.
Proof. reflexivity. Qed.

Lemma Mode_exeHeader pathInZip :
  Mode (exeHeader pathInZip) =
  if endsWithSlash pathInZip then Z.lor o0777 ModeDir else o0777.
Proof.
  unfold Mode, exeHeader, stamp. simpl Name.
  by destruct (endsWithSlash pathInZip).
Qed.

Lemma Mode_auxHeader arg :
  Mode (auxHeader arg) =
  if endsWithSlash arg then Z.lor o0666 ModeDir else o0666.
Proof.
  unfold Mode, auxHeader, stamp, newHeader. simpl Name.
  by destruct (endsWithSlash arg).
Qed.

Lemma isSymlink_exeEntry pathInZip data : isSymlink (exeEntry pathInZip data) = false.
Proof.
  unfold isSymlink, exeEntry. simpl header. rewrite Mode_exeHeader.
  by destruct (endsWithSlash pathInZip).
Qed.

Lemma isSymlink_auxEntry fsys arg : isSymlink (auxEntry fsys arg) = false.
Proof.
  unfold isSymlink, auxEntry. simpl header. rewrite Mode_auxHeader.
  by destruct (endsWithSlash arg).
Qed.

Lemma Base_of_readable fsys exePath :
  readable fsys exePath -> endsWithSlash (Filepath.Base exePath) = false.
Proof.
  intros Hr. destruct (endsWithSlash (Filepath.Base exePath)) eqn:Hb; [|done].
  apply FilepathFacts.Base_endsWithSlash in Hb.
  apply readable_not_directory in Hr. congruence.
Qed.

(** C1: an executable whose base name is not [bootstrap], no auxiliary
    files: the archive holds exactly two entries, a symbolic link named
    [bootstrap] whose stored target is the base name, then a regular file
    named with the base name holding the executable's bytes. *)
Theorem archive_link_and_executable (fsys : FileSystem) zipFile exePath w :
  Filepath.Base exePath <> bootstrap ->
  compressExeAndArgs fsys zipFile exePath [] = (None, w) ->
  exists data link exe,
    ReadFile fsys exePath = OK data /\
    entries w = [link; exe] /\
    Name (header link) = bootstrap /\
    isSymlink link = true /\
    body link = bytes (Filepath.Base exePath) /\
    Name (header exe) = Filepath.Base exePath /\
    isRegular exe = true /\
    body exe = data.
Proof.
  intros Hne H. apply compressExeAndArgs_nil in H as (data & Hr & _ & H).
  exists data, (linkEntry (Filepath.Base exePath)), (exeEntry (Filepath.Base exePath) data).
  split; [done|]. split.
  { rewrite H. unfold exeEntries. apply String.eqb_neq in Hne. by rewrite Hne. }
  repeat split; try done.
  unfold isRegular, exeEntry. simpl header. rewrite Mode_exeHeader.
  by rewrite (Base_of_readable fsys exePath) by (by exists data).
Qed.

Lemma archive_link_and_executable_witness :
  Filepath.Base "build/handler" <> bootstrap /\
  exists data link exe,
    ReadFile sample_fs "build/handler" = OK data /\
    entries (snd (compressExeAndArgs sample_fs [] "build/handler" [])) = [link; exe] /\
    Name (header link) = bootstrap /\
    isSymlink link = true /\
    body link = bytes (Filepath.Base "build/handler") /\
    Name (header exe) = Filepath.Base "build/handler" /\
    isRegular exe = true /\
    body exe = data.
Proof.
  split; [discriminate|].
  apply (archive_link_and_executable sample_fs [] "build/handler");
    [discriminate|reflexivity].
Defined.

(** C2: an executable whose base name is [bootstrap], no auxiliary files:
    the archive holds exactly one entry, the executable under the name
    [bootstrap], and no symbolic link. *)
Theorem archive_bootstrap_only (fsys : FileSystem) zipFile exePath w :
  Filepath.Base exePath = bootstrap ->
  compressExeAndArgs fsys zipFile exePath [] = (None, w) ->
  exists data exe,
    ReadFile fsys exePath = OK data /\
    entries w = [exe] /\
    Name (header exe) = bootstrap /\
    body exe = data /\
    isRegular exe = true /\
    Forall (fun e => isSymlink e = false) (entries w).
Proof.
  intros Heq H. apply compressExeAndArgs_nil in H as (data & Hr & _ & H).
  rewrite Heq in H. simpl in H.
  exists data, (exeEntry bootstrap data).
  repeat split; try done.
  rewrite H. by repeat constructor.
Qed.

Lemma archive_bootstrap_only_witness :
  Filepath.Base "bootstrap" = bootstrap /\
  exists data exe,
    ReadFile sample_fs "bootstrap" = OK data /\
    entries (snd (compressExeAndArgs sample_fs [] "bootstrap" [])) = [exe] /\
    Name (header exe) = bootstrap /\
    body exe = data /\
    isRegular exe = true /\
    Forall (fun e => isSymlink e = false)
           (entries (snd (compressExeAndArgs sample_fs [] "bootstrap" []))).
Proof.
  split; [reflexivity|].
  apply (archive_bootstrap_only sample_fs [] "bootstrap"); reflexivity.
Defined.


(** C3, as the code has it: the link entry, first in the archive and its
    only symbolic link, has mode [0755] (read, write and execute for the
    owner, read and execute for group and other) with the link bit. *)
Theorem link_entry_mode (fsys : FileSystem) zipFile exePath args w :
  Filepath.Base exePath <> bootstrap ->
  compressExeAndArgs fsys zipFile exePath args = (None, w) ->
  exists link rest,
    entries w = link :: rest /\
    Name (header link) = bootstrap /\
    isSymlink link = true /\
    Mode (header link) = Z.lor o0755 ModeSymlink /\
    perm link = o0755 /\
    ExternalAttrs (header link) = 0xA1ED0000 /\
    Forall (fun e => isSymlink e = false) rest.
Proof.
  intros Hne H. apply compressExeAndArgs_nil in H as (data & Hr & _ & H).
  unfold exeEntries in H. apply String.eqb_neq in Hne. rewrite Hne in H.
  exists (linkEntry (Filepath.Base exePath)),
    (exeEntry (Filepath.Base exePath) data :: map (auxEntry fsys) args).
  repeat split; try done.
  constructor; [apply isSymlink_exeEntry|].
  apply List.Forall_forall. intros e He. apply in_map_iff in He as (arg & <- & _).
  apply isSymlink_auxEntry.
Qed.

Lemma link_entry_mode_witness :
  Filepath.Base "build/handler" <> bootstrap /\
  exists link rest,
    entries (snd (compressExeAndArgs sample_fs [] "build/handler" ["config.json"]))
      = link :: rest /\
    Name (header link) = bootstrap /\
    isSymlink link = true /\
    Mode (header link) = Z.lor o0755 ModeSymlink /\
    perm link = o0755 /\
    ExternalAttrs (header link) = 0xA1ED0000 /\
    Forall (fun e => isSymlink e = false) rest.
Proof.
  split; [discriminate|].
  apply (link_entry_mode sample_fs [] "build/handler" ["config.json"]);
    [discriminate|reflexivity].
Defined.

(** C3 as worded fails: for [build/handler] the link entry's mode is
    [0755|ModeSymlink]; group and other cannot write. *)
Lemma link_mode_all_classes_fails : ~ link_mode_all_classes.
Proof.
  intros Hclaim.
  specialize (Hclaim sample_fs [] "build/handler" []
                (snd (compressExeAndArgs sample_fs [] "build/handler" []))
                (linkEntry "handler")).
  assert (Hmode : Mode (header (linkEntry "handler")) = Z.lor o0777 ModeSymlink).
  { apply Hclaim; [discriminate|reflexivity|by left|reflexivity]. }
  discriminate Hmode.
Qed.

(** *** Failed reads *)

Lemma compressExeAndArgs_unreadable_exe fsys zipFile exePath args e :
  ReadFile fsys exePath = Err e ->
  compressExeAndArgs fsys zipFile exePath args
    = (Some e, snd (Close (NewWriter zipFile))).
Proof. intros Hr. unfold compressExeAndArgs, bind, lift. by rewrite Hr. Qed.

Lemma compressExeAndArgs_unreadable fsys zipFile exePath args :
  unreadable fsys exePath \/ Exists (unreadable fsys) args ->
  exists e w, compressExeAndArgs fsys zipFile exePath args = (Some e, w).
Proof.
  intros [[e He]|Hargs].
  - rewrite (compressExeAndArgs_unreadable_exe _ _ _ _ e He). eauto.
  - unfold compressExeAndArgs, bind, lift.
    destruct (ReadFile fsys exePath) as [data|e]; [|eauto].
    destruct (writeExe _ data (NewWriter zipFile)) as [[[]|e] w1]; [|eauto].
    destruct (compressArgs_unreadable fsys args Hargs w1) as (e & w2 & ->). eauto.
Qed.

Lemma compressExeAndArgs_first_unreadable fsys zipFile exePath pre arg post data e :
  ReadFile fsys exePath = OK data ->
  accepting zipFile ->
  Forall (readable fsys) pre ->
  ReadFile fsys arg = Err e ->
  exists w,
    compressExeAndArgs fsys zipFile exePath (pre ++ arg :: post) = (Some e, w) /\
    entries w = exeEntries (Filepath.Base exePath) data ++ map (auxEntry fsys) pre
                  ++ [ {| header := auxHeader arg; body := [] |} ].
Proof.
  intros Hr Ha Hpre He. unfold compressExeAndArgs, bind, lift. rewrite Hr.
  destruct (writeExe_accepting (Filepath.Base exePath) data (NewWriter zipFile) Ha)
    as (w1 & -> & H1 & Hc1 & Ha1).
  { apply (Base_of_readable fsys). by exists data. }
  destruct (compressArgs_first_unreadable fsys pre arg post e Hpre He w1 Ha1)
    as (w2 & -> & H2).
  eexists. split; [reflexivity|]. by rewrite Close_entries, H2, H1.
Qed.

(** C5, as the code has it: a failed read makes the build return an
    error, but output is not withheld.  Nothing has been written when the
    executable cannot be read; when an auxiliary file cannot be read, the
    entries written before it and the empty entry already created for it
    stay in the archive; and the write-to-file path has created the
    output file before reading anything and leaves it in place. *)
Theorem failed_read_returns_error (fsys : FileSystem) Create_file
    outZipPath zipFile exePath args :
  unreadable fsys exePath \/ Exists (unreadable fsys) args ->
  Create_file outZipPath = OK zipFile ->
  exists e w,
    compressExeAndArgs fsys zipFile exePath args = (Some e, w) /\
    compressExeAndArgsToFile fsys Create_file outZipPath exePath args
      = (Some e, Some (outZipPath, w)) /\
    closed w = true /\
    (unreadable fsys exePath -> ReadFile fsys exePath = Err e /\ entries w = []) /\
    (forall data pre arg post,
        ReadFile fsys exePath = OK data ->
        accepting zipFile ->
        args = pre ++ arg :: post ->
        Forall (readable fsys) pre ->
        unreadable fsys arg ->
        ReadFile fsys arg = Err e /\
        entries w = exeEntries (Filepath.Base exePath) data ++ map (auxEntry fsys) pre
                      ++ [ {| header := auxHeader arg; body := [] |} ]).
Proof.
  intros Hfail Hcreate.
  destruct (compressExeAndArgs_unreadable fsys zipFile exePath args Hfail)
    as (e & w & Hrun).
  exists e, w. split; [done|]. split.
  { unfold compressExeAndArgsToFile. by rewrite Hcreate, Hrun. }
  split.
  { assert (Hw : w = snd (compressExeAndArgs fsys zipFile exePath args))
      by (by rewrite Hrun).
    rewrite Hw. unfold compressExeAndArgs.
    destruct (bind _ _ (NewWriter zipFile)) as [r w1]. simpl. apply Close_closed. }
  split.
  - intros [e' He'].
    rewrite (compressExeAndArgs_unreadable_exe _ _ _ _ e' He') in Hrun.
    inversion Hrun; subst. split; [done|]. by rewrite Close_entries.
  - intros data pre arg post Hr Ha -> Hpre [e' He'].
    destruct (compressExeAndArgs_first_unreadable
                fsys zipFile exePath pre arg post data e' Hr Ha Hpre He')
      as (w' & Hrun' & Hentries).
    rewrite Hrun in Hrun'. inversion Hrun'; subst. done.
Qed.

Lemma failed_read_returns_error_witness :
  (unreadable sample_fs "build/handler" \/
   Exists (unreadable sample_fs) ["config.json"; "missing.txt"; "config.json"]) /\
  sample_create "out.zip" = OK [] /\
  exists e w,
    compressExeAndArgs sample_fs [] "build/handler"
      ["config.json"; "missing.txt"; "config.json"] = (Some e, w) /\
    compressExeAndArgsToFile sample_fs sample_create "out.zip" "build/handler"
      ["config.json"; "missing.txt"; "config.json"] = (Some e, Some ("out.zip", w)) /\
    closed w = true /\
    (unreadable sample_fs "build/handler" ->
     ReadFile sample_fs "build/handler" = Err e /\ entries w = []) /\
    (forall data pre arg post,
        ReadFile sample_fs "build/handler" = OK data ->
        accepting [] ->
        ["config.json"; "missing.txt"; "config.json"] = pre ++ arg :: post ->
        Forall (readable sample_fs) pre ->
        unreadable sample_fs arg ->
        ReadFile sample_fs arg = Err e /\
        entries w = exeEntries (Filepath.Base "build/handler") data
                      ++ map (auxEntry sample_fs) pre
                      ++ [ {| header := auxHeader arg; body := [] |} ]).
Proof.
  assert (Hfail : unreadable sample_fs "build/handler" \/
                  Exists (unreadable sample_fs)
                         ["config.json"; "missing.txt"; "config.json"]).
  { right. apply Exists_cons_tl, Exists_cons_hd.
    exists "no such file or directory". reflexivity. }
  split; [exact Hfail|]. split; [reflexivity|].
  exact (failed_read_returns_error sample_fs sample_create "out.zip" []
           "build/handler" ["config.json"; "missing.txt"; "config.json"]
           Hfail eq_refl).
Defined.

(** C5 as worded fails: with [missing.txt] unreadable, the entries for the
    link, the executable and the failing file are in the output, and the
    zip file exists. *)
Lemma failed_read_emits_nothing_fails : ~ failed_read_emits_nothing.
Proof.
  intros Hclaim.
  destruct (Hclaim sample_fs sample_create "out.zip" [] "build/handler" ["missing.txt"])
    as (_ & Hentries & _).
  - right. apply Exists_cons_hd. exists "no such file or directory". reflexivity.
  - reflexivity.
  - discriminate Hentries.
Qed.

(** C8: in every archive the builder produces, every entry (the link
    when present, the executable, each auxiliary file) is stored with the
    deflate method. *)
Theorem archive_entries_deflate (fsys : FileSystem) zipFile exePath args w :
  compressExeAndArgs fsys zipFile exePath args = (None, w) ->
  Forall (fun e => Method (header e) = Deflate) (entries w).
Proof.
  intros H. apply compressExeAndArgs_nil in H as (data & Hr & Hargs & ->).
  apply Forall_app. split.
  - unfold exeEntries. apply Forall_app. split.
    + destruct (String.eqb _ bootstrap); by repeat constructor.
    + repeat constructor. unfold exeEntry, exeHeader, stamp. simpl.
      by rewrite (Base_of_readable fsys exePath) by (by exists data).
  - apply List.Forall_forall. intros e He. apply in_map_iff in He as (arg & <- & Harg).
    rewrite List.Forall_forall in Hargs.
    unfold auxEntry, auxHeader, stamp, newHeader. simpl.
    by rewrite (readable_not_directory fsys arg) by (by apply Hargs).
Qed.

Lemma archive_entries_deflate_witness :
  compressExeAndArgs sample_fs [] "build/handler" ["config.json"]
    = (None, snd (compressExeAndArgs sample_fs [] "build/handler" ["config.json"])) /\
  Forall (fun e => Method (header e) = Deflate)
         (entries (snd (compressExeAndArgs sample_fs [] "build/handler" ["config.json"]))).
Proof.
  split; [reflexivity|].
  apply (archive_entries_deflate sample_fs [] "build/handler" ["config.json"]).
  reflexivity.
Defined.

End ArchiveTheorems.

(** ** The deploy client *)
Module DeployTheorems.
Import Zip BuildLambdaZip Scenarios Observed.

(** A sequence with a status that is not in progress splits at the first
    such status. *)
Lemma first_terminal (obs : list FunctionConfiguration) :
  Exists (fun c => ~ inProgress c) obs ->
  exists pre t post,
    obs = pre ++ t :: post /\ Forall inProgress pre /\ ~ inProgress t.
Proof.
  induction obs as [|c obs IH]; intros Hex; [by inversion Hex|].
  destruct (String.eqb (LastUpdateStatus c) LastUpdateStatusInProgress) eqn:Hc.
  - apply String.eqb_eq in Hc.
    inversion Hex as [? ? Hn|? ? Hrest]; subst; [done|].
    destruct (IH Hrest) as (pre & t & post & -> & Hpre & Ht).
    exists (c :: pre), t, post. repeat split; try done. by constructor.
  - apply String.eqb_neq in Hc. exists [], c, obs. by repeat split.
Qed.

Lemma poll_terminal functionName t replies trace :
  ~ inProgress t ->
  poll functionName (LastUpdateStatus t) (LastUpdateStatusReason t) replies trace
  = Some (None, trace ++ [EvLog (statusLine t)], replies).
Proof.
  intros Ht. apply String.eqb_neq in Ht.
  destruct replies; simpl; by rewrite Ht.
Qed.

Lemma poll_waiting functionName c c' replies trace :
  inProgress c ->
  poll functionName (LastUpdateStatus c) (LastUpdateStatusReason c)
       (OK c' :: replies) trace
  = poll functionName (LastUpdateStatus c') (LastUpdateStatusReason c') replies
         (trace ++ waiting functionName c).
Proof.
  intros Hc. apply String.eqb_eq in Hc. simpl. rewrite Hc.
  unfold waiting. by rewrite <- !app_assoc.
Qed.

(** The loop on the observations [pre ++ [t]]: it logs and fetches once
    per status of [pre], logs [t] and returns nil, leaving [post]. *)
Lemma poll_observed functionName pre t post :
  Forall inProgress pre ->
  ~ inProgress t ->
  forall c0 cs trace,
    c0 :: cs = pre ++ [t] ->
    poll functionName (LastUpdateStatus c0) (LastUpdateStatusReason c0)
         (map OK cs ++ post) trace
    = Some (None, trace ++ pollEvents functionName pre t, post).
Proof.
  intros Hpre Ht. induction Hpre as [|c pre Hc _ IH]; intros c0 cs trace Heq.
  - simpl in Heq. inversion Heq; subst. simpl map. simpl app at 1.
    by rewrite poll_terminal.
  - simpl in Heq. inversion Heq; subst.
    destruct (pre ++ [t]) as [|c1 cs1] eqn:Hcs; [by destruct pre|].
    simpl map. simpl app at 1. rewrite poll_waiting by done.
    rewrite (IH c1 cs1) by done.
    unfold pollEvents. simpl. by rewrite <- !app_assoc.
Qed.

Lemma reports_app tr1 tr2 : reports (tr1 ++ tr2) = reports tr1 ++ reports tr2.
Proof. unfold reports. apply omap_app. Qed.

Lemma reports_pollEvents functionName pre t :
  reports (pollEvents functionName pre t) = map statusLine (pre ++ [t]).
Proof.
  unfold pollEvents. rewrite reports_app, map_app. f_equal.
  induction pre as [|c pre IH]; [done|].
  cbn [map concat]. rewrite reports_app, IH. done.
Qed.

Lemma fetches_app tr1 tr2 : fetches (tr1 ++ tr2) = (fetches tr1 + fetches tr2)%nat.
Proof. unfold fetches. by rewrite List.filter_app, length_app. Qed.

Lemma fetches_pollEvents functionName pre t :
  fetches (pollEvents functionName pre t) = length pre.
Proof.
  unfold pollEvents. rewrite fetches_app.
  replace (fetches [EvLog (statusLine t)]) with 0%nat by done.
  rewrite Nat.add_0_r.
  induction pre as [|c pre IH]; [done|].
  cbn [map concat length]. rewrite fetches_app, IH. done.
Qed.

(** The operation once the archive is built and the configuration
    loaded. *)
Lemma updateFunctionCode_built fsys svc functionName exePath args buffer :
  compressExeAndArgs fsys [] exePath args = (None, buffer) ->
  LoadDefaultConfig svc = None ->
  updateFunctionCode fsys svc functionName exePath args
  = match UpdateFunctionCode svc functionName (entries buffer) with
    | Err e => Some (Some e, [EvUpdateFunctionCode functionName (entries buffer)],
                     GetFunction svc)
    | OK updateResponse =>
        poll functionName (upd_LastUpdateStatus updateResponse)
             (upd_StateReason updateResponse) (GetFunction svc)
             [EvUpdateFunctionCode functionName (entries buffer)]
    end.
Proof. intros Hb Hc. unfold updateFunctionCode. by rewrite Hb, Hc. Qed.

(** C6: when some observed status is not in progress, the loop stops at
    the first such status and the operation returns nil, whichever status
    that is; what the service would have replied later, statuses or
    errors, is not fetched. *)
Theorem deploy_stops_at_first_terminal (fsys : FileSystem) svc functionName
    exePath args buffer updateResponse cs later :
  compressExeAndArgs fsys [] exePath args = (None, buffer) ->
  LoadDefaultConfig svc = None ->
  UpdateFunctionCode svc functionName (entries buffer) = OK updateResponse ->
  GetFunction svc = map OK cs ++ later ->
  Exists (fun c => ~ inProgress c) (initial updateResponse :: cs) ->
  exists pre t post,
    initial updateResponse :: cs = pre ++ t :: post /\
    Forall inProgress pre /\
    ~ inProgress t /\
    updateFunctionCode fsys svc functionName exePath args
    = Some (None,
            EvUpdateFunctionCode functionName (entries buffer)
              :: pollEvents functionName pre t,
            map OK post ++ later).
Proof.
  intros Hb Hc Hu Hg Hex.
  destruct (first_terminal _ Hex) as (pre & t & post & Heq & Hpre & Ht).
  exists pre, t, post. repeat split; try done.
  rewrite (updateFunctionCode_built _ _ _ _ _ _ Hb Hc), Hu, Hg.
  assert (Hsplit : exists cs', initial updateResponse :: cs' = pre ++ [t]
                               /\ cs = cs' ++ post).
  { destruct pre as [|c pre]; simpl in *; inversion Heq; subst.
    - by exists [].
    - exists (pre ++ [t]). split; [done|]. by rewrite <- app_assoc. }
  destruct Hsplit as (cs' & Hcs' & ->).
  rewrite map_app, <- app_assoc.
  exact (poll_observed functionName pre t (map OK post ++ later) Hpre Ht
           (initial updateResponse) cs' _ Hcs').
Qed.


Lemma deploy_stops_at_first_terminal_witness :
  compressExeAndArgs sample_fs [] "build/handler" []
    = (None, snd (compressExeAndArgs sample_fs [] "build/handler" [])) /\
  LoadDefaultConfig failing_update_service = None /\
  exists pre t post,
    [ {| LastUpdateStatus := "InProgress"; LastUpdateStatusReason := None |};
      {| LastUpdateStatus := "Failed"; LastUpdateStatusReason := Some "InvalidImage" |} ]
      = pre ++ t :: post /\
    Forall inProgress pre /\
    ~ inProgress t /\
    updateFunctionCode sample_fs failing_update_service "my-function" "build/handler" []
    = Some (None,
            EvUpdateFunctionCode "my-function"
              (entries (snd (compressExeAndArgs sample_fs [] "build/handler" [])))
              :: pollEvents "my-function" pre t,
            map OK post ++ [Err "RequestError: send request failed"]).
Proof.
  split; [reflexivity|]. split; [reflexivity|].
  apply (deploy_stops_at_first_terminal sample_fs failing_update_service
           "my-function" "build/handler" []
           (snd (compressExeAndArgs sample_fs [] "build/handler" []))
           {| upd_LastUpdateStatus := "InProgress"; upd_StateReason := None |}
           [ {| LastUpdateStatus := "Failed";
                LastUpdateStatusReason := Some "InvalidImage" |} ]
           [Err "RequestError: send request failed"]);
    try reflexivity.
  apply Exists_cons_tl, Exists_cons_hd. discriminate.
Defined.

(** C7: the operation logs one status line per observed status up to and
    including the first that is not in progress; for in progress, in
    progress, successful it logs exactly three lines and returns nil; and
    when the update request fails it returns that error at once, with no
    status line, no wait and no fetch. *)
Theorem deploy_status_reports (fsys : FileSystem) functionName exePath args buffer :
  compressExeAndArgs fsys [] exePath args = (None, buffer) ->
  (forall svc updateResponse cs later pre t post,
      LoadDefaultConfig svc = None ->
      UpdateFunctionCode svc functionName (entries buffer) = OK updateResponse ->
      GetFunction svc = map OK cs ++ later ->
      initial updateResponse :: cs = pre ++ t :: post ->
      Forall inProgress pre ->
      ~ inProgress t ->
      exists trace,
        updateFunctionCode fsys svc functionName exePath args
          = Some (None, trace, map OK post ++ later) /\
        reports trace = map statusLine (pre ++ [t]) /\
        fetches trace = length pre) /\
  (forall svc r0 r1 r2,
      LoadDefaultConfig svc = None ->
      UpdateFunctionCode svc functionName (entries buffer)
        = OK {| upd_LastUpdateStatus := LastUpdateStatusInProgress;
                upd_StateReason := r0 |} ->
      GetFunction svc
        = [ OK {| LastUpdateStatus := LastUpdateStatusInProgress;
                  LastUpdateStatusReason := r1 |};
            OK {| LastUpdateStatus := LastUpdateStatusSuccessful;
                  LastUpdateStatusReason := r2 |} ] ->
      exists trace,
        updateFunctionCode fsys svc functionName exePath args = Some (None, trace, []) /\
        length (reports trace) = 3%nat /\
        fetches trace = 2%nat) /\
  (forall svc e,
      LoadDefaultConfig svc = None ->
      UpdateFunctionCode svc functionName (entries buffer) = Err e ->
      exists trace,
        updateFunctionCode fsys svc functionName exePath args
          = Some (Some e, trace, GetFunction svc) /\
        trace = [EvUpdateFunctionCode functionName (entries buffer)] /\
        reports trace = [] /\
        fetches trace = 0%nat).
Proof.
  intros Hb. split; [|split].
  - intros svc updateResponse cs later pre t post Hc Hu Hg Heq Hpre Ht.
    rewrite (updateFunctionCode_built _ _ _ _ _ _ Hb Hc), Hu, Hg.
    assert (Hsplit : exists cs', initial updateResponse :: cs' = pre ++ [t]
                                 /\ cs = cs' ++ post).
    { destruct pre as [|c pre]; simpl in *; inversion Heq; subst.
      - by exists [].
      - exists (pre ++ [t]). split; [done|]. by rewrite <- app_assoc. }
    destruct Hsplit as (cs' & Hcs' & ->).
    rewrite map_app, <- app_assoc.
    rewrite (poll_observed functionName pre t (map OK post ++ later) Hpre Ht
               (initial updateResponse) cs' _ Hcs').
    eexists. split; [reflexivity|]. split.
    + rewrite reports_app, reports_pollEvents. done.
    + rewrite fetches_app, fetches_pollEvents. done.
  - intros svc r0 r1 r2 Hc Hu Hg.
    rewrite (updateFunctionCode_built _ _ _ _ _ _ Hb Hc), Hu, Hg.
    eexists. split; [reflexivity|]. by split.
  - intros svc e Hc Hu.
    rewrite (updateFunctionCode_built _ _ _ _ _ _ Hb Hc), Hu.
    eexists. split; [reflexivity|]. by repeat split.
Qed.

Lemma deploy_status_reports_witness :
  compressExeAndArgs sample_fs [] "build/handler" []
    = (None, snd (compressExeAndArgs sample_fs [] "build/handler" [])) /\
  (exists trace,
      updateFunctionCode sample_fs sample_service "my-function" "build/handler" []
        = Some (None, trace,
                map OK [ {| LastUpdateStatus := "Failed";
                            LastUpdateStatusReason := None |} ]) /\
      reports trace
        = [ "state[InProgress] reason[<nil>]";
            "state[InProgress] reason[The function is being updated.]";
            "state[Successful] reason[<nil>]" ] /\
      fetches trace = 2%nat) /\
  (exists trace,
      updateFunctionCode sample_fs scenario_service "my-function" "build/handler" []
        = Some (None, trace, []) /\
      length (reports trace) = 3%nat /\
      fetches trace = 2%nat) /\
  (exists trace,
      updateFunctionCode sample_fs unreachable_service "my-function" "build/handler" []
        = Some (Some "RequestError: send request failed", trace,
                GetFunction unreachable_service) /\
      trace = [EvUpdateFunctionCode "my-function"
                 (entries (snd (compressExeAndArgs sample_fs [] "build/handler" [])))] /\
      reports trace = [] /\
      fetches trace = 0%nat).
Proof.
  split; [reflexivity|].
  destruct (deploy_status_reports sample_fs "my-function" "build/handler" []
              (snd (compressExeAndArgs sample_fs [] "build/handler" [])) eq_refl)
    as (Hgeneral & Hscenario & Hfailed).
  split; [|split].
  - apply (Hgeneral sample_service
             {| upd_LastUpdateStatus := "InProgress"; upd_StateReason := None |}
             [ {| LastUpdateStatus := "InProgress";
                  LastUpdateStatusReason := Some "The function is being updated." |};
               {| LastUpdateStatus := "Successful"; LastUpdateStatusReason := None |};
               {| LastUpdateStatus := "Failed"; LastUpdateStatusReason := None |} ]
             []
             [ {| LastUpdateStatus := "InProgress"; LastUpdateStatusReason := None |};
               {| LastUpdateStatus := "InProgress";
                  LastUpdateStatusReason := Some "The function is being updated." |} ]
             {| LastUpdateStatus := "Successful"; LastUpdateStatusReason := None |}
             [ {| LastUpdateStatus := "Failed"; LastUpdateStatusReason := None |} ]);
      try reflexivity.
    + repeat constructor.
    + discriminate.
  - apply (Hscenario scenario_service None None None); reflexivity.
  - apply (Hfailed unreachable_service "RequestError: send request failed");
      reflexivity.
Defined.

End DeployTheorems.

(** ** The compile adapter *)
Module CompileTheorems.
Import Exec BuildLambdaZip.

Lemma lookupEnv_app env1 env2 key :
  lookupEnv (env1 ++ env2) key =
  match lookupEnv env2 key with
  | Some v => Some v
  | None => lookupEnv env1 key
  end.
Proof.
  induction env1 as [|kv env1 IH]; simpl.
  - by destruct (lookupEnv env2 key).
  - rewrite IH. by destruct (lookupEnv env2 key).
Qed.

(** What the compiler sees: the caller's binding of a variable when there
    is one, else the fixed [GOOS=linux] and [GOARCH=amd64]. *)
Lemma goBuild_env Environ in_ key :
  lookupEnv (Env (goBuild_cmd Environ in_)) key =
  match lookupEnv Environ key with
  | Some v => Some v
  | None => lookupEnv ["GOOS=linux"; "GOARCH=amd64"] key
  end.
Proof.
  unfold goBuild_cmd. cbn [Env].
  exact (lookupEnv_app ["GOOS=linux"; "GOARCH=amd64"] Environ key).
Qed.

(** X8: where the caller binds neither variable the target is
    linux/amd64, and every other variable is the caller's. *)
Lemma goBuild_env_unbound Environ in_ :
  lookupEnv Environ "GOOS" = None ->
  lookupEnv Environ "GOARCH" = None ->
  lookupEnv (Env (goBuild_cmd Environ in_)) "GOOS" = Some "linux" /\
  lookupEnv (Env (goBuild_cmd Environ in_)) "GOARCH" = Some "amd64" /\
  forall key, key <> "GOOS" -> key <> "GOARCH" ->
    lookupEnv (Env (goBuild_cmd Environ in_)) key = lookupEnv Environ key.
Proof.
  intros Hos Harch. rewrite !goBuild_env, Hos, Harch. repeat split.
  intros key H1 H2. rewrite goBuild_env.
  destruct (lookupEnv Environ key); [done|].
  change (lookupEnv ["GOOS=linux"; "GOARCH=amd64"] key)
    with (match (if String.eqb "GOARCH" key then Some "amd64" else None) with
          | Some v => Some v
          | None => if String.eqb "GOOS" key then Some "linux" else None
          end).
  apply not_eq_sym, String.eqb_neq in H1. apply not_eq_sym, String.eqb_neq in H2.
  by rewrite H1, H2.
Qed.

(** C4 at a caller environment that sets [GOOS=darwin]: the entries
    [GOOS=linux] and [GOARCH=amd64] come first in [cmd.Env] and the
    caller's come after them, so the compiler is run with [GOOS=darwin]. *)
Theorem goBuild_caller_GOOS_wins :
  Env (goBuild_cmd ["GOOS=darwin"; "HOME=/home/dev"] "main.go")
    = ["GOOS=linux"; "GOARCH=amd64"; "GOOS=darwin"; "HOME=/home/dev"] /\
  lookupEnv (Env (goBuild_cmd ["GOOS=darwin"; "HOME=/home/dev"] "main.go")) "GOOS"
    = Some "darwin" /\
  lookupEnv (Env (goBuild_cmd ["GOOS=darwin"; "HOME=/home/dev"] "main.go")) "GOARCH"
    = Some "amd64" /\
  lookupEnv (Env (goBuild_cmd ["GOOS=darwin"; "HOME=/home/dev"] "main.go")) "HOME"
    = Some "/home/dev".
Proof. repeat split. Qed.

End CompileTheorems.

(** ** lambda/messages: FromError *)
Module MessagesTheorems.
Import Messages Worded.

Lemma alloc_fresh v (h : heap) :
  exists l, h !! l = None /\ alloc v h = (Some l, <[l := v]> h).
Proof.
  exists (fresh (dom h)). split; [|done].
  apply not_elem_of_dom, is_fresh.
Qed.

(** C9, as the code has it.  [FromError] returns nil for the nil error
    and for a nil [*InvokeResponse_Error], and for nothing else.  An
    [*InvokeResponse_Error] is returned as it is; an
    [InvokeResponse_Error] value is returned as a pointer to a new object
    holding that value; any other error gives a new object whose
    [Message] is the error's [Error()] string and whose [Type] is the
    name of its type, or of the element type when its type is a pointer;
    [StackTrace] and [ShouldExit] are left zero. *)
Theorem FromError_result (err : error_value) (h : heap) :
  (fst (FromError err h) = None <-> err = ErrNil \/ err = ErrPointer None) /\
  match err with
  | ErrNil => FromError err h = (None, h)
  | ErrPointer p => FromError err h = (p, h)
  | ErrValue ive =>
      exists l, h !! l = None /\
        FromError err h = (Some l, <[l := ive]> h) /\
        load (fst (FromError err h)) (snd (FromError err h)) = Some ive
  | ErrOther errorType msg =>
      exists l, h !! l = None /\
        FromError err h =
          (Some l, <[l := {| Message := msg; Type_ := getErrorType errorType;
                             StackTrace := []; ShouldExit := false |}]> h) /\
        (forall name, errorType = RType name None ->
           load (fst (FromError err h)) (snd (FromError err h))
           = Some {| Message := msg; Type_ := name;
                     StackTrace := []; ShouldExit := false |}) /\
        (forall name elemName elemElem,
           errorType = RType name (Some (RType elemName elemElem)) ->
           load (fst (FromError err h)) (snd (FromError err h))
           = Some {| Message := msg; Type_ := elemName;
                     StackTrace := []; ShouldExit := false |})
  end.
Proof.
  destruct err as [|ive|p|errorType msg]; simpl.
  - split; [|done]. split; [by left|done].
  - destruct (alloc_fresh ive h) as (l & Hl & Ha). rewrite Ha. simpl. split.
    + split; [done|]. by intros [|].
    + exists l. repeat split; [done|]. apply lookup_insert_eq.
  - split; [|done]. split; [intros ->; by right|]. by intros [|[= ->]].
  - fold (getErrorType errorType).
    destruct (alloc_fresh {| Message := msg; Type_ := getErrorType errorType;
                             StackTrace := []; ShouldExit := false |} h)
      as (l & Hl & Ha).
    rewrite Ha. simpl. split.
    + split; [done|]. by intros [|].
    + exists l. repeat split; [done|..].
      * intros name ->. apply lookup_insert_eq.
      * intros name elemName elemElem ->. apply lookup_insert_eq.
Qed.

(** C9 as worded fails: a nil [*InvokeResponse_Error] stored in an
    [error] is not the nil error, and [FromError] returns it, nil. *)
Lemma FromError_nil_only_for_nil_fails : ~ FromError_nil_only_for_nil.
Proof.
  intros Hclaim.
  destruct (Hclaim (ErrPointer None) ∅) as [Hnil _].
  discriminate (Hnil eq_refl).
Qed.

Lemma FromError_result_witness :
  load (fst (FromError (ErrOther (RType "" (Some (RType "PathError" None))) "open x") ∅))
       (snd (FromError (ErrOther (RType "" (Some (RType "PathError" None))) "open x") ∅))
  = Some {| Message := "open x"; Type_ := "PathError";
            StackTrace := []; ShouldExit := false |}.
Proof.
  destruct (FromError_result
              (ErrOther (RType "" (Some (RType "PathError" None))) "open x") ∅)
    as (_ & l & _ & _ & _ & Hpointer).
  exact (Hpointer "" "PathError" None eq_refl).
Defined.

Example FromError_named :
  load (fst (FromError (ErrOther (RType "errorString" None) "boom") ∅))
       (snd (FromError (ErrOther (RType "errorString" None) "boom") ∅))
  = Some {| Message := "boom"; Type_ := "errorString";
            StackTrace := []; ShouldExit := false |}.
Proof. reflexivity. Qed.

Example FromError_pointer_type :
  load (fst (FromError (ErrOther (RType "" (Some (RType "PathError" None))) "open x") ∅))
       (snd (FromError (ErrOther (RType "" (Some (RType "PathError" None))) "open x") ∅))
  = Some {| Message := "open x"; Type_ := "PathError";
            StackTrace := []; ShouldExit := false |}.
Proof. reflexivity. Qed.

End MessagesTheorems.

(** ** unicode/utf8 and strings *)
Module StringsFacts.
Import Strings.

(** A well-formed sequence lies within the string. *)
Lemma decodeWidth_length s n :
  decodeWidth s = S n -> (n < String.length s)%nat.
Proof.
  destruct s as [|c0 r0]; [done|]. simpl.
  destruct (first c0) as [[[[|[|[|[|[|n']]]]] lo] hi]|]; try done;
    split_match; intros [= <-]; lia.
Qed.

(** It is not affected by what follows. *)
Lemma decodeWidth_app s t n :
  decodeWidth s = S n -> decodeWidth (s +:+ t) = S n.
Proof.
  destruct s as [|c0 r0]; [done|]. simpl.
  destruct (first c0) as [[[[|[|[|[|[|n']]]]] lo] hi]|]; try done.
  - destruct r0 as [|c1 r1]; [done|]. simpl. by destruct (between lo hi c1).
  - destruct r0 as [|c1 r1]; [done|]. simpl. by destruct (between lo hi c1).
  - destruct r0 as [|c1 r1]; [done|]. simpl. destruct (between lo hi c1); [|done].
    destruct r1 as [|c2 r2]; [done|]. simpl. by destruct (continuation c2).
  - destruct r0 as [|c1 r1]; [done|]. simpl. destruct (between lo hi c1); [|done].
    destruct r1 as [|c2 [|c3 r3]]; try done.
  - destruct r0 as [|c1 r1]; [done|]. simpl. by destruct (between lo hi c1).
Qed.

(** Coercion leaves valid UTF-8 as it is. *)
Lemma coerce_valid s : forall pending, valid pending s = true -> coerce pending s = s.
Proof.
  induction s as [|c rest IH]; intros pending; [done|].
  destruct pending as [|k].
  - cbn [valid coerce]. destruct (decodeWidth (String c rest)) as [|k]; [done|].
    intros Hv. by rewrite IH.
  - cbn [valid coerce]. intros Hv. by rewrite IH.
Qed.

Lemma ToValidUTF8_valid s : ValidString s = true -> ToValidUTF8 s = s.
Proof. apply coerce_valid. Qed.

Lemma valid_app s t :
  forall pending,
    (pending <= String.length s)%nat ->
    valid pending s = true ->
    valid pending (s +:+ t) = valid 0 t.
Proof.
  induction s as [|c rest IH]; intros pending Hlen.
  - simpl in Hlen. by replace pending with 0%nat by lia.
  - destruct pending as [|k].
    + change (String c rest +:+ t) with (String c (rest +:+ t)).
      cbn [valid].
      destruct (decodeWidth (String c rest)) as [|k] eqn:Hw; [done|].
      pose proof (decodeWidth_length _ _ Hw) as Hk.
      pose proof (decodeWidth_app _ t _ Hw) as Hw'.
      change (String c rest +:+ t) with (String c (rest +:+ t)) in Hw'.
      rewrite Hw'. simpl in Hk. apply IH. lia.
    + change (String c rest +:+ t) with (String c (rest +:+ t)).
      cbn [valid]. simpl in Hlen. apply IH. lia.
Qed.

Lemma ValidString_app s t :
  ValidString s = true -> ValidString t = true -> ValidString (s +:+ t) = true.
Proof.
  unfold ValidString. intros Hs Ht. rewrite valid_app; [done|lia|done].
Qed.

Lemma ValidString_Join l :
  Forall (fun s => ValidString s = true) l -> ValidString (Join l ",") = true.
Proof.
  induction 1 as [|x l Hx Hl IH]; [done|].
  destruct l as [|y l]; [done|].
  change (Join (x :: y :: l) ",") with (x +:+ "," +:+ Join (y :: l) ",").
  apply ValidString_app; [done|]. by apply ValidString_app.
Qed.

(** *** Split after Join *)

Lemma Split_nonempty s sep : Split s sep <> [].
Proof.
  destruct s as [|c rest]; simpl; [done|].
  destruct (Ascii.eqb c sep); [done|]. by destruct (Split rest sep).
Qed.

Lemma Split_plain s sep : Contains s sep = false -> Split s sep = [s].
Proof.
  induction s as [|c rest IH]; simpl; [done|].
  intros H. apply orb_false_iff in H as [Hc Hrest].
  by rewrite Hc, IH.
Qed.

Lemma Split_app s sep t :
  Contains s sep = false ->
  Split (s +:+ String sep t) sep = s :: Split t sep.
Proof.
  induction s as [|c rest IH]; simpl.
  - intros _. by rewrite Ascii.eqb_refl.
  - intros H. apply orb_false_iff in H as [Hc Hrest].
    by rewrite Hc, IH.
Qed.

Lemma Split_Join l :
  l <> [] ->
  Forall (fun s => Contains s "," = false) l ->
  Split (Join l ",") "," = l.
Proof.
  intros Hne Hl. induction Hl as [|x l Hx Hl IH]; [done|].
  destruct l as [|y l].
  - by apply Split_plain.
  - change (Join (x :: y :: l) ",") with (x +:+ String "," (Join (y :: l) ",")).
    rewrite Split_app by done. f_equal. by apply IH.
Qed.

End StringsFacts.

(** ** events: the JSON round trip of headers and query parameters *)
Module EventsTheorems.
Import Strings Events Worded StringsFacts.

Lemma copyMap_id (m : gmap string (list string)) : copyMap m = m.
Proof.
  unfold copyMap. rewrite map_fold_foldr.
  rewrite <- (list_to_map_to_list m) at 2.
  induction (map_to_list m) as [|[k v] l IH]; [done|].
  simpl. by rewrite IH.
Qed.

Lemma marshalMembers_written kvs : marshalMembers kvs = OK (map written kvs).
Proof.
  induction kvs as [|[k v] kvs IH]; [done|].
  simpl. by rewrite IH.
Qed.

Lemma written_sound kvs : Forall sound kvs -> map written kvs = map joined kvs.
Proof.
  induction 1 as [|[k v] kvs (Hk & Hv & _) _ IH]; [done|].
  simpl. rewrite IH. unfold written, joined. simpl in *.
  by rewrite (ToValidUTF8_valid k), (ToValidUTF8_valid _ (ValidString_Join v Hv)).
Qed.

Lemma unmarshalMembers_joined kvs :
  Forall sound kvs ->
  forall m,
    unmarshalMembers (map joined kvs) m
    = OK (fold_left (fun m kv => <[kv.1 := kv.2]> m) kvs m).
Proof.
  induction 1 as [|[k v] kvs (Hk & Hv & Hne & Hplain) _ IH]; intros m; [done|].
  simpl in *. unfold commaSeperatedValues_UnmarshalJSON, unmarshalString.
  rewrite (ToValidUTF8_valid _ (ValidString_Join v Hv)).
  rewrite (ToValidUTF8_valid k Hk).
  unfold comma. rewrite Split_Join by done. apply IH.
Qed.

Lemma fold_left_insert (kvs : list (string * list string)) :
  NoDup (kvs.*1) ->
  forall m : gmap string (list string),
    fold_left (fun m kv => <[kv.1 := kv.2]> m) kvs m = list_to_map kvs ∪ m.
Proof.
  induction kvs as [|[k v] kvs IH]; intros Hnd m; simpl.
  - by rewrite (left_id_L ∅ (∪)).
  - inversion Hnd as [|? ? Hk Hnd']; subst.
    rewrite IH by done.
    rewrite <- insert_union_r by (by apply not_elem_of_list_to_map_1).
    by rewrite insert_union_l.
Qed.

Lemma sorted_bindings (f : gmap string (list string)) :
  joinable f -> utf8 f ->
  Forall sound (merge_sort key_le (map_to_list f)).
Proof.
  intros Hj Hu. rewrite merge_sort_Permutation.
  apply Forall_forall. intros [k v] Hkv. apply elem_of_map_to_list in Hkv.
  destruct (Hj k v Hkv) as [Hne Hplain]. destruct (Hu k v Hkv) as [Hk Hv].
  by repeat split.
Qed.

Lemma marshalMap_joined (f : gmap string (list string)) :
  joinable f -> utf8 f ->
  marshalMap f = OK (JObject (map joined (merge_sort key_le (map_to_list f)))).
Proof.
  intros Hj Hu. unfold marshalMap.
  by rewrite marshalMembers_written, (written_sound _ (sorted_bindings f Hj Hu)).
Qed.

Lemma unmarshalMap_joined (f : gmap string (list string)) :
  joinable f -> utf8 f ->
  unmarshalMap (JObject (map joined (merge_sort key_le (map_to_list f)))) = OK f.
Proof.
  intros Hj Hu. unfold unmarshalMap.
  rewrite (unmarshalMembers_joined _ (sorted_bindings f Hj Hu)).
  f_equal.
  assert (Hperm : merge_sort key_le (map_to_list f) ≡ₚ map_to_list f)
    by apply merge_sort_Permutation.
  rewrite fold_left_insert.
  - rewrite (right_id_L ∅ (∪)).
    rewrite <- (list_to_map_to_list f) at 2.
    apply list_to_map_proper; [|done].
    rewrite Hperm. apply NoDup_fst_map_to_list.
  - rewrite Hperm. apply NoDup_fst_map_to_list.
Qed.

(** C10, as the code has it: for a map whose value lists are non-empty
    with comma-free elements, and whose keys and elements are valid
    UTF-8, marshalling gives an object with exactly one member per key,
    its value the elements joined by commas, and unmarshalling that
    object gives the map back; for headers and for query parameters. *)
Theorem marshal_unmarshal_roundtrip (f : gmap string (list string)) :
  joinable f ->
  utf8 f ->
  exists members,
    functionURLHeaders_MarshalJSON f = OK (JObject members) /\
    functionURLHeaders_UnmarshalJSON (JObject members) = OK f /\
    functionURLValues_MarshalJSON f = OK (JObject members) /\
    functionURLValues_UnmarshalJSON (JObject members) = OK f /\
    (forall k j, In (k, j) members <->
                 exists l, f !! k = Some l /\ j = JString (Join l ",")).
Proof.
  intros Hj Hu.
  exists (map joined (merge_sort key_le (map_to_list f))).
  unfold functionURLHeaders_MarshalJSON, functionURLHeaders_UnmarshalJSON,
    functionURLValues_MarshalJSON, functionURLValues_UnmarshalJSON.
  rewrite !copyMap_id, (marshalMap_joined f Hj Hu), (unmarshalMap_joined f Hj Hu).
  rewrite copyMap_id. repeat split; try done.
  - intros Hin. apply in_map_iff in Hin as ([k' v] & Heq & Hin).
    inversion Heq; subst. exists v. split; [|done].
    apply list_elem_of_In in Hin. rewrite merge_sort_Permutation in Hin.
    by apply elem_of_map_to_list in Hin.
  - intros (l & Hl & ->). apply in_map_iff. exists (k, l). split; [done|].
    apply list_elem_of_In. rewrite merge_sort_Permutation.
    by apply elem_of_map_to_list.
Qed.

Lemma sample_headers_joinable : joinable sample_headers.
Proof.
  intros k l H. unfold sample_headers in H.
  apply lookup_insert_Some in H as [[<- <-]|[_ H]];
    [|apply lookup_singleton_Some in H as [<- <-]];
    (split; [done|by repeat constructor]).
Defined.

Lemma sample_headers_utf8 : utf8 sample_headers.
Proof.
  intros k l H. unfold sample_headers in H.
  apply lookup_insert_Some in H as [[<- <-]|[_ H]];
    [|apply lookup_singleton_Some in H as [<- <-]];
    (split; [done|by repeat constructor]).
Defined.

Lemma marshal_unmarshal_roundtrip_witness :
  joinable sample_headers /\
  utf8 sample_headers /\
  exists members,
    functionURLHeaders_MarshalJSON sample_headers = OK (JObject members) /\
    functionURLHeaders_UnmarshalJSON (JObject members) = OK sample_headers /\
    functionURLValues_MarshalJSON sample_headers = OK (JObject members) /\
    functionURLValues_UnmarshalJSON (JObject members) = OK sample_headers /\
    (forall k j, In (k, j) members <->
                 exists l, sample_headers !! k = Some l /\ j = JString (Join l ",")).
Proof.
  split; [exact sample_headers_joinable|].
  split; [exact sample_headers_utf8|].
  exact (marshal_unmarshal_roundtrip sample_headers
           sample_headers_joinable sample_headers_utf8).
Defined.

Example sample_headers_json :
  functionURLHeaders_MarshalJSON sample_headers
  = OK (JObject [ ("accept", JString "*/*");
                  ("x-forwarded-for", JString "203.0.113.7,10.0.0.1") ]).
Proof. vm_compute. reflexivity. Qed.

(** C10 as worded fails: the value "caf" followed by the byte 0xE9 has no
    comma, yet it is written as "caf" followed by U+FFFD and read back as
    such. *)
Lemma roundtrip_of_joinable_fails : ~ roundtrip_of_joinable.
Proof.
  intros Hclaim.
  destruct (Hclaim latin1_headers) as [(j & Hm & Hu) _].
  - intros k l H. unfold latin1_headers in H.
    apply lookup_singleton_Some in H as [<- <-].
    split; [done|by repeat constructor].
  - vm_compute in Hm. injection Hm as <-.
    apply (f_equal (fun r => match r with
                             | OK m => m !! "x-name"
                             | Err _ => None
                             end)) in Hu.
    vm_compute in Hu. discriminate Hu.
Qed.

End EventsTheorems.

(** ** The model run on small inputs *)
Module Examples.
Import Zip BuildLambdaZip Scenarios Observed.

Example Base_nested : Filepath.Base "build/handler" = "handler".
Proof. reflexivity. Qed.

Example Base_trailing_separators : Filepath.Base "dir/handler//" = "handler".
Proof. reflexivity. Qed.

Example Base_root : Filepath.Base "///" = "/".
Proof. reflexivity. Qed.

Example Base_empty : Filepath.Base EmptyString = ".".
Proof. reflexivity. Qed.

Example linkHeader_attrs :
  ExternalAttrs linkHeader = 0xA1ED0000 /\ CreatorVersion linkHeader = 0x314.
Proof. split; reflexivity. Qed.

Example exeHeader_attrs :
  ExternalAttrs (exeHeader "handler") = 0x1FF0000 /\
  Mode (exeHeader "handler") = o0777.
Proof. split; reflexivity. Qed.

(** The archive for [build/handler] with [config.json]: link, executable,
    data file. *)
Example archive_with_auxiliary_file :
  compressExeAndArgs sample_fs [] "build/handler" ["config.json"]
  = (None,
     {| entries := [ linkEntry "handler";
                     exeEntry "handler" [x7f; x45; x4c; x46]%byte;
                     {| header := auxHeader "config.json"; body := [x7b; x7d]%byte |} ];
        closed := true; faults := [] |}).
Proof. reflexivity. Qed.

(** A writer that fails on its third operation: the link has been
    written, the executable has not, and the error is returned. *)
Example archive_write_fault :
  compressExeAndArgs sample_fs [None; None; Some "disk full"] "build/handler" []
  = (Some "disk full",
     {| entries := [linkEntry "handler"]; closed := true; faults := [] |}).
Proof. reflexivity. Qed.

(** A fetch that fails during polling ends the deploy with its error. *)
Example deploy_fetch_error :
  updateFunctionCode sample_fs
    {| LoadDefaultConfig := None;
       UpdateFunctionCode := fun _ _ =>
         OK {| upd_LastUpdateStatus := "InProgress"; upd_StateReason := None |};
       GetFunction := [Err "RequestError: send request failed"] |}
    "my-function" "bootstrap" []
  = Some (Some "RequestError: send request failed",
          [ EvUpdateFunctionCode "my-function"
              [exeEntry "bootstrap" [x7f; x45; x4c; x46; x02]%byte];
            EvLog "state[InProgress] reason[<nil>]";
            EvSleep 250;
            EvGetFunction "my-function" ],
          []).
Proof. reflexivity. Qed.

Example Split_commas :
  Strings.Split "a,b,,c" "," = ["a"; "b"; EmptyString; "c"].
Proof. reflexivity. Qed.

Example Split_empty : Strings.Split EmptyString "," = [EmptyString].
Proof. reflexivity. Qed.

Example ToValidUTF8_latin1 :
  Strings.ToValidUTF8 (String "233" EmptyString) = Strings.replacementChar.
Proof. reflexivity. Qed.

(** "é" in UTF-8 (C3 A9) is left as it is. *)
Example ToValidUTF8_two_bytes :
  Strings.ToValidUTF8 (String "195" (String "169" EmptyString))
  = String "195" (String "169" EmptyString).
Proof. reflexivity. Qed.

End Examples.

(** ** More on the archives produced *)
Module ArchiveMore.
Import Zip BuildLambdaZip Scenarios ArchiveFacts ArchiveTheorems.

Lemma auxEntry_of_readable fsys arg :
  readable fsys arg ->
  Name (header (auxEntry fsys arg)) = arg /\
  ReadFile fsys arg = OK (body (auxEntry fsys arg)) /\
  Method (header (auxEntry fsys arg)) = Deflate /\
  isRegular (auxEntry fsys arg) = true /\
  perm (auxEntry fsys arg) = o0666.
Proof.
  intros Hr. pose proof (readable_not_directory _ _ Hr) as Hd.
  destruct Hr as [data Hr].
  unfold isRegular, perm. simpl header. rewrite Mode_auxHeader, Hd.
  unfold auxEntry, contents, auxHeader, stamp, newHeader. simpl.
  by rewrite Hr, Hd.
Qed.

(** X1: in an archive the builder produces, the entries written by
    [writeExe] are followed by one entry per auxiliary path, in the order
    given, each named with the path as given, holding the bytes of that
    file, deflated, a regular file with the default mode 0666. *)
Theorem archive_auxiliary_entries (fsys : FileSystem) zipFile exePath args w :
  compressExeAndArgs fsys zipFile exePath args = (None, w) ->
  exists data aux,
    ReadFile fsys exePath = OK data /\
    entries w = exeEntries (Filepath.Base exePath) data ++ aux /\
    Forall2 (fun arg e =>
               Name (header e) = arg /\
               ReadFile fsys arg = OK (body e) /\
               Method (header e) = Deflate /\
               isRegular e = true /\
               perm e = o0666) args aux.
Proof.
  intros H. apply compressExeAndArgs_nil in H as (data & Hr & Hargs & H).
  exists data, (map (auxEntry fsys) args). repeat split; try done.
  clear H. induction Hargs as [|arg args Harg _ IH]; [constructor|].
  simpl. constructor; [|exact IH]. by apply auxEntry_of_readable.
Qed.

Lemma archive_auxiliary_entries_witness :
  compressExeAndArgs sample_fs [] "build/handler" ["config.json"]
    = (None, snd (compressExeAndArgs sample_fs [] "build/handler" ["config.json"])) /\
  exists data aux,
    ReadFile sample_fs "build/handler" = OK data /\
    entries (snd (compressExeAndArgs sample_fs [] "build/handler" ["config.json"]))
      = exeEntries (Filepath.Base "build/handler") data ++ aux /\
    Forall2 (fun arg e =>
               Name (header e) = arg /\
               ReadFile sample_fs arg = OK (body e) /\
               Method (header e) = Deflate /\
               isRegular e = true /\
               perm e = o0666) ["config.json"] aux.
Proof.
  split; [reflexivity|].
  apply (archive_auxiliary_entries sample_fs [] "build/handler" ["config.json"]).
  reflexivity.
Defined.

(** X2: against a writer that accepts everything, the build returns nil
    exactly when the executable and every auxiliary file can be read. *)
Theorem build_succeeds_iff_readable (fsys : FileSystem) zipFile exePath args :
  accepting zipFile ->
  (fst (compressExeAndArgs fsys zipFile exePath args) = None <->
   readable fsys exePath /\ Forall (readable fsys) args).
Proof.
  intros Ha. split.
  - destruct (compressExeAndArgs fsys zipFile exePath args) as [err w] eqn:H.
    simpl. intros ->. apply compressExeAndArgs_nil in H as (data & Hr & Hargs & _).
    split; [by exists data|done].
  - intros [Hexe Hargs]. by apply compressExeAndArgs_succeeds.
Qed.

Lemma build_succeeds_iff_readable_witness :
  accepting [None; None] /\
  (fst (compressExeAndArgs sample_fs [None; None] "bootstrap" ["config.json"]) = None <->
   readable sample_fs "bootstrap" /\ Forall (readable sample_fs) ["config.json"]).
Proof.
  assert (Ha : accepting [None; None]) by (by repeat constructor).
  split; [exact Ha|].
  exact (build_succeeds_iff_readable sample_fs [None; None] "bootstrap" ["config.json"] Ha).
Defined.

(** X4: every archive produced starts with the entry named [bootstrap].
    It is either the executable itself, with permissions 0777, or a
    symbolic link whose target names the next entry, which is the
    executable with permissions 0777. *)
Theorem bootstrap_entry_first (fsys : FileSystem) zipFile exePath args w :
  compressExeAndArgs fsys zipFile exePath args = (None, w) ->
  exists data first rest,
    ReadFile fsys exePath = OK data /\
    entries w = first :: rest /\
    Name (header first) = bootstrap /\
    (isSymlink first = false ->
       body first = data /\ perm first = o0777 /\ isRegular first = true) /\
    (isSymlink first = true ->
       exists exe rest',
         rest = exe :: rest' /\
         bytes (Name (header exe)) = body first /\
         body exe = data /\ perm exe = o0777 /\ isRegular exe = true).
Proof.
  intros H. apply compressExeAndArgs_nil in H as (data & Hr & _ & H).
  assert (Hd : endsWithSlash (Filepath.Base exePath) = false)
    by (apply (Base_of_readable fsys); by exists data).
  assert (Hexe : perm (exeEntry (Filepath.Base exePath) data) = o0777 /\
                 isRegular (exeEntry (Filepath.Base exePath) data) = true).
  { unfold perm, isRegular, exeEntry. simpl header. by rewrite Mode_exeHeader, Hd. }
  unfold exeEntries in H.
  destruct (String.eqb (Filepath.Base exePath) bootstrap) eqn:Hb.
  - apply String.eqb_eq in Hb.
    exists data, (exeEntry (Filepath.Base exePath) data), (map (auxEntry fsys) args).
    split; [done|]. split; [done|]. split; [exact Hb|]. split.
    + intros _. split; [done|apply Hexe].
    + intros Hs. by rewrite isSymlink_exeEntry in Hs.
  - exists data, (linkEntry (Filepath.Base exePath)),
      (exeEntry (Filepath.Base exePath) data :: map (auxEntry fsys) args).
    split; [done|]. split; [done|]. split; [done|]. split.
    + intros Hs. discriminate Hs.
    + intros _.
      exists (exeEntry (Filepath.Base exePath) data), (map (auxEntry fsys) args).
      split; [done|]. split; [done|]. split; [done|apply Hexe].
Qed.

Lemma bootstrap_entry_first_witness :
  compressExeAndArgs sample_fs [] "build/handler" ["config.json"]
    = (None, snd (compressExeAndArgs sample_fs [] "build/handler" ["config.json"])) /\
  exists data first rest,
    ReadFile sample_fs "build/handler" = OK data /\
    entries (snd (compressExeAndArgs sample_fs [] "build/handler" ["config.json"]))
      = first :: rest /\
    Name (header first) = bootstrap /\
    (isSymlink first = false ->
       body first = data /\ perm first = o0777 /\ isRegular first = true) /\
    (isSymlink first = true ->
       exists exe rest',
         rest = exe :: rest' /\
         bytes (Name (header exe)) = body first /\
         body exe = data /\ perm exe = o0777 /\ isRegular exe = true).
Proof.
  split; [reflexivity|].
  apply (bootstrap_entry_first sample_fs [] "build/handler" ["config.json"]).
  reflexivity.
Defined.


(** *** A writer that fails *)







(** *** The archive does not depend on where it is written *)





End ArchiveMore.

(** ** More on the deploy client *)
Module DeployMore.
Import Zip BuildLambdaZip Scenarios Observed ArchiveTheorems DeployTheorems.

Lemma poll_fetch_error functionName e later cs :
  forall c trace,
    Forall inProgress (c :: cs) ->
    poll functionName (LastUpdateStatus c) (LastUpdateStatusReason c)
         (map OK cs ++ Err e :: later) trace
    = Some (Some e, trace ++ concat (map (waiting functionName) (c :: cs)), later).
Proof.
  induction cs as [|c' cs IH]; intros c trace Hall.
  - inversion Hall as [|? ? Hc _]; subst. unfold inProgress in Hc.
    apply String.eqb_eq in Hc. simpl. rewrite Hc.
    by rewrite <- !app_assoc.
  - inversion Hall as [|? ? Hc Hrest]; subst.
    simpl map. simpl app at 1. rewrite poll_waiting by done.
    rewrite (IH c' _ Hrest). simpl. by rewrite <- !app_assoc.
Qed.

Lemma reports_waiting functionName cs :
  reports (concat (map (waiting functionName) cs)) = map statusLine cs.
Proof.
  induction cs as [|c cs IH]; [done|].
  cbn [map concat]. rewrite reports_app, IH. done.
Qed.

Lemma fetches_waiting functionName cs :
  fetches (concat (map (waiting functionName) cs)) = length cs.
Proof.
  induction cs as [|c cs IH]; [done|].
  cbn [map concat length]. rewrite fetches_app, IH. done.
Qed.

(** X6: when a status fetch fails while every status seen so far is in
    progress, the deploy returns that error at once: it has logged each
    status seen, made no fetch after the failed one, and logs nothing
    more. *)
Theorem deploy_fetch_failure (fsys : FileSystem) svc functionName exePath args
    buffer updateResponse cs e later :
  compressExeAndArgs fsys [] exePath args = (None, buffer) ->
  LoadDefaultConfig svc = None ->
  UpdateFunctionCode svc functionName (entries buffer) = OK updateResponse ->
  GetFunction svc = map OK cs ++ Err e :: later ->
  Forall inProgress (initial updateResponse :: cs) ->
  exists trace,
    updateFunctionCode fsys svc functionName exePath args = Some (Some e, trace, later) /\
    reports trace = map statusLine (initial updateResponse :: cs) /\
    fetches trace = S (length cs).
Proof.
  intros Hb Hc Hu Hg Hall.
  rewrite (updateFunctionCode_built _ _ _ _ _ _ Hb Hc), Hu, Hg.
  rewrite (poll_fetch_error functionName e later cs (initial updateResponse) _ Hall).
  eexists. split; [reflexivity|]. split.
  - rewrite reports_app, reports_waiting. done.
  - rewrite fetches_app, fetches_waiting. done.
Qed.

Lemma deploy_fetch_failure_witness :
  compressExeAndArgs sample_fs [] "build/handler" []
    = (None, snd (compressExeAndArgs sample_fs [] "build/handler" [])) /\
  Forall inProgress
    [ {| LastUpdateStatus := "InProgress"; LastUpdateStatusReason := None |};
      {| LastUpdateStatus := "InProgress"; LastUpdateStatusReason := None |} ] /\
  exists trace,
    updateFunctionCode sample_fs
      {| LoadDefaultConfig := None;
         UpdateFunctionCode := fun _ _ =>
           OK {| upd_LastUpdateStatus := "InProgress"; upd_StateReason := None |};
         GetFunction :=
           [ OK {| LastUpdateStatus := "InProgress"; LastUpdateStatusReason := None |};
             Err "RequestError: send request failed";
             OK {| LastUpdateStatus := "Successful"; LastUpdateStatusReason := None |} ] |}
      "my-function" "build/handler" []
    = Some (Some "RequestError: send request failed", trace,
            [ OK {| LastUpdateStatus := "Successful"; LastUpdateStatusReason := None |} ]) /\
    reports trace = [ "state[InProgress] reason[<nil>]"; "state[InProgress] reason[<nil>]" ] /\
    fetches trace = 2%nat.
Proof.
  assert (Hall : Forall inProgress
            [ {| LastUpdateStatus := "InProgress"; LastUpdateStatusReason := None |};
              {| LastUpdateStatus := "InProgress"; LastUpdateStatusReason := None |} ])
    by (by repeat constructor).
  split; [reflexivity|]. split; [exact Hall|].
  exact (deploy_fetch_failure sample_fs
           {| LoadDefaultConfig := None;
              UpdateFunctionCode := fun _ _ =>
                OK {| upd_LastUpdateStatus := "InProgress"; upd_StateReason := None |};
              GetFunction :=
                [ OK {| LastUpdateStatus := "InProgress"; LastUpdateStatusReason := None |};
                  Err "RequestError: send request failed";
                  OK {| LastUpdateStatus := "Successful";
                        LastUpdateStatusReason := None |} ] |}
           "my-function" "build/handler" []
           (snd (compressExeAndArgs sample_fs [] "build/handler" []))
           {| upd_LastUpdateStatus := "InProgress"; upd_StateReason := None |}
           [ {| LastUpdateStatus := "InProgress"; LastUpdateStatusReason := None |} ]
           "RequestError: send request failed"
           [ OK {| LastUpdateStatus := "Successful"; LastUpdateStatusReason := None |} ]
           eq_refl eq_refl eq_refl eq_refl Hall).
Defined.

(** X7: nothing is sent to the service unless the archive was built and
    the configuration loaded: when an input cannot be read, or
    [LoadDefaultConfig] fails, the deploy returns an error without an
    update request, a status line or a fetch. *)
Theorem deploy_sends_nothing_on_failure (fsys : FileSystem) svc functionName
    exePath args :
  unreadable fsys exePath \/ Exists (unreadable fsys) args
    \/ LoadDefaultConfig svc <> None ->
  exists e,
    updateFunctionCode fsys svc functionName exePath args
    = Some (Some e, [], GetFunction svc).
Proof.
  intros H. unfold updateFunctionCode.
  destruct (compressExeAndArgs fsys [] exePath args) as [[e|] buffer] eqn:Hb; [eauto|].
  destruct (LoadDefaultConfig svc) as [e|] eqn:Hc; [eauto|].
  exfalso. destruct H as [H|[H|H]]; [| |done].
  - destruct (compressExeAndArgs_unreadable fsys [] exePath args (or_introl H))
      as (e & w & Hrun). congruence.
  - destruct (compressExeAndArgs_unreadable fsys [] exePath args (or_intror H))
      as (e & w & Hrun). congruence.
Qed.

Lemma deploy_sends_nothing_on_failure_witness :
  (unreadable sample_fs "build/handler"
   \/ Exists (unreadable sample_fs) ["missing.txt"]
   \/ LoadDefaultConfig sample_service <> None) /\
  exists e,
    updateFunctionCode sample_fs sample_service "my-function" "build/handler"
      ["missing.txt"]
    = Some (Some e, [], GetFunction sample_service).
Proof.
  assert (H : unreadable sample_fs "build/handler"
              \/ Exists (unreadable sample_fs) ["missing.txt"]
              \/ LoadDefaultConfig sample_service <> None).
  { right. left. apply Exists_cons_hd. exists "no such file or directory". reflexivity. }
  split; [exact H|].
  exact (deploy_sends_nothing_on_failure sample_fs sample_service "my-function"
           "build/handler" ["missing.txt"] H).
Defined.

End DeployMore.

(** ** More on the compile adapter *)
Module CompileMore.
Import Exec BuildLambdaZip Cli CompileTheorems.

Lemma goBuild_env_unbound_witness :
  lookupEnv ["HOME=/home/dev"; "HTTPS_PROXY=proxy:3128"] "GOOS" = None /\
  lookupEnv ["HOME=/home/dev"; "HTTPS_PROXY=proxy:3128"] "GOARCH" = None /\
  lookupEnv (Env (goBuild_cmd ["HOME=/home/dev"; "HTTPS_PROXY=proxy:3128"] "main.go"))
    "GOOS" = Some "linux" /\
  lookupEnv (Env (goBuild_cmd ["HOME=/home/dev"; "HTTPS_PROXY=proxy:3128"] "main.go"))
    "GOARCH" = Some "amd64" /\
  forall key, key <> "GOOS" -> key <> "GOARCH" ->
    lookupEnv (Env (goBuild_cmd ["HOME=/home/dev"; "HTTPS_PROXY=proxy:3128"] "main.go")) key
    = lookupEnv ["HOME=/home/dev"; "HTTPS_PROXY=proxy:3128"] key.
Proof.
  split; [reflexivity|]. split; [reflexivity|].
  exact (goBuild_env_unbound ["HOME=/home/dev"; "HTTPS_PROXY=proxy:3128"] "main.go"
           eq_refl eq_refl).
Defined.

(** X9: whatever the caller's environment holds, every variable other
    than [GOOS] and [GOARCH] reaches the compiler as the caller has it,
    bound to the same value or unbound. *)
Theorem goBuild_env_passes_through Environ in_ key :
  key <> "GOOS" ->
  key <> "GOARCH" ->
  lookupEnv (Env (goBuild_cmd Environ in_)) key = lookupEnv Environ key.
Proof.
  intros H1 H2. rewrite goBuild_env.
  destruct (lookupEnv Environ key); [done|].
  change (lookupEnv ["GOOS=linux"; "GOARCH=amd64"] key)
    with (match (if String.eqb "GOARCH" key then Some "amd64" else None) with
          | Some v => Some v
          | None => if String.eqb "GOOS" key then Some "linux" else None
          end).
  apply not_eq_sym, String.eqb_neq in H1. apply not_eq_sym, String.eqb_neq in H2.
  by rewrite H1, H2.
Qed.

Lemma goBuild_env_passes_through_witness :
  "AWS_PROFILE" <> "GOOS" /\
  "AWS_PROFILE" <> "GOARCH" /\
  lookupEnv (Env (goBuild_cmd ["AWS_PROFILE=dev"; "GOOS=darwin"] "main.go")) "AWS_PROFILE"
    = lookupEnv ["AWS_PROFILE=dev"; "GOOS=darwin"] "AWS_PROFILE".
Proof.
  assert (H1 : "AWS_PROFILE" <> "GOOS") by discriminate.
  assert (H2 : "AWS_PROFILE" <> "GOARCH") by discriminate.
  split; [exact H1|]. split; [exact H2|].
  exact (goBuild_env_passes_through ["AWS_PROFILE=dev"; "GOOS=darwin"] "main.go"
           "AWS_PROFILE" H1 H2).
Defined.

Lemma hasSeparator_app s t :
  Filepath.hasSeparator (s +:+ t) = Filepath.hasSeparator s || Filepath.hasSeparator t.
Proof.
  induction s as [|c s IH]; [done|]. simpl. by rewrite IH, orb_assoc.
Qed.

Lemma Base_hasSeparator path :
  Filepath.hasSeparator (Filepath.Base path) = true -> endsWithSlash path = true.
Proof.
  unfold Filepath.Base. destruct path as [|c rest]; [done|].
  destruct (Filepath.lastElement (Filepath.stripTrailingSlashes (String c rest)))
    as [|c' elem] eqn:Hl.
  - intros _. apply FilepathFacts.lastElement_empty in Hl as [Hl|Hl].
    + by apply FilepathFacts.stripTrailingSlashes_empty in Hl as [Hl|Hl].
    + by rewrite FilepathFacts.stripTrailingSlashes_trimmed in Hl.
  - intros H. by rewrite <- Hl, FilepathFacts.lastElement_no_separator in H.
Qed.

Lemma Ext_of_directory path : endsWithSlash path = true -> Ext path = EmptyString.
Proof.
  induction path as [|c rest IH]; [done|].
  destruct rest as [|c' rest'].
  - simpl. intros Hc. apply Ascii.eqb_eq in Hc. by subst c.
  - intros Hd. change (endsWithSlash (String c' rest') = true) in Hd.
    cbn [Ext]. cbn [Ext] in IH. rewrite (IH Hd).
    by rewrite (FilepathFacts.endsWithSlash_hasSeparator _ Hd).
Qed.

(** X10: for a source path (extension [.go]) the executable is written
    to [Base(in) + ".exe"], a name without a directory part, so in the
    working directory, whatever the environment and the compiler's
    outcome; the compiler is run as [go build -o] that name and the source
    path. *)
Theorem goBuild_output_in_working_directory Environ Run_ in_ :
  Ext in_ = ".go" ->
  fst (goBuild Environ Run_ in_) = Filepath.Base in_ +:+ ".exe" /\
  Filepath.hasSeparator (fst (goBuild Environ Run_ in_)) = false /\
  Args (goBuild_cmd Environ in_)
    = ["go"; "build"; "-o"; fst (goBuild Environ Run_ in_); in_].
Proof.
  intros Hext. split; [done|]. split; [|done].
  unfold goBuild. simpl. rewrite hasSeparator_app.
  destruct (Filepath.hasSeparator (Filepath.Base in_)) eqn:Hs; [|done].
  apply Base_hasSeparator, Ext_of_directory in Hs. congruence.
Qed.

Lemma goBuild_output_in_working_directory_witness :
  Ext "cmd/api/main.go" = ".go" /\
  fst (goBuild [] (fun _ => None) "cmd/api/main.go")
    = Filepath.Base "cmd/api/main.go" +:+ ".exe" /\
  Filepath.hasSeparator (fst (goBuild [] (fun _ => None) "cmd/api/main.go")) = false /\
  Args (goBuild_cmd [] "cmd/api/main.go")
    = ["go"; "build"; "-o"; fst (goBuild [] (fun _ => None) "cmd/api/main.go");
       "cmd/api/main.go"].
Proof.
  split; [reflexivity|].
  exact (goBuild_output_in_working_directory [] (fun _ => None) "cmd/api/main.go" eq_refl).
Defined.

End CompileMore.

(** ** The command line *)
Module MainTheorems.
Import Zip BuildLambdaZip Cli.

Lemma count_app p steps1 steps2 :
  count p (steps1 ++ steps2) = (count p steps1 + count p steps2)%nat.
Proof. unfold count. by rewrite List.filter_app, length_app. Qed.

Lemma filter_cleanup world builtExePath :
  List.filter isRemoved (cleanup world builtExePath) = [Removed builtExePath] /\
  count isPackaged (cleanup world builtExePath) = 0%nat /\
  count isDeployed (cleanup world builtExePath) = 0%nat /\
  count isCompiled (cleanup world builtExePath) = 0%nat /\
  zipPaths (cleanup world builtExePath) = [].
Proof. unfold cleanup. by destruct (Remove world builtExePath). Qed.

(** What [package] leaves: one packaging or deploy step and a log line,
    then the deferred steps when it succeeds. *)
Lemma package_inv world outputZip functionName inputExe args deferred status steps :
  package world outputZip functionName inputExe args deferred = Some (status, steps) ->
  exists step line,
    steps = [step; Logged line] ++ (if status =? 0 then deferred else []) /\
    (status = 0 \/ status = 1) /\
    (functionName = EmptyString ->
       exists file, step = Packaged file /\
         (forall path w, file = Some (path, w) -> path = outputZip) /\
         (status = 0 -> exists w, file = Some (outputZip, w))) /\
    (functionName <> EmptyString -> exists trace, step = Deployed trace).
Proof.
  unfold package.
  destruct (String.eqb functionName EmptyString) eqn:Hfn.
  - apply String.eqb_eq in Hfn.
    unfold compressExeAndArgsToFile.
    destruct (CreateFile world outputZip) as [zipFile|e].
    + destruct (compressExeAndArgs (Files world) zipFile inputExe args) as [[e|] w];
        intros H; inversion H; subst; eexists _, _; (split; [reflexivity|]);
        (split; [auto|]); (split; [|done]); intros _; eexists; (split; [reflexivity|]);
        split; try discriminate; try (intros ? ? [= <- <-]; done); eauto.
    + intros H; inversion H; subst. eexists _, _. split; [reflexivity|].
      split; [auto|]. split; [|done]. intros _. eexists. split; [reflexivity|].
      split; [discriminate|discriminate].
  - apply String.eqb_neq in Hfn.
    destruct (updateFunctionCode _ _ _ _ _) as [[[[e|] trace] replies]|]; [| |done];
      intros H; inversion H; subst; eexists _, _; (split; [reflexivity|]);
      (split; [auto|]); (split; [done|]); intros _; eauto.
Qed.


(** What [main] does with a first argument: it compiles when the
    extension is [.go] and then packages, with the output path fixed
    beforehand. *)
Lemma main_inv world outputZip functionName inputExe args status steps :
  main world outputZip functionName (inputExe :: args) = Some (status, steps) ->
  let out := if String.eqb outputZip EmptyString
             then Filepath.Base inputExe +:+ ".zip" else outputZip in
  let built := Filepath.Base inputExe +:+ ".exe" in
  let cmd := goBuild_cmd (Environ world) inputExe in
  (Ext inputExe <> ".go" /\
   package world out functionName inputExe args [] = Some (status, steps)) \/
  (Ext inputExe = ".go" /\
   exists e, Run world cmd = Some e /\ status = 1 /\
     steps = [Compiled cmd;
              Logged ("failed to compile .go file " +:+ inputExe +:+ ": " +:+ e)]) \/
  (Ext inputExe = ".go" /\ Run world cmd = None /\
   exists later,
     package world out functionName built args (cleanup world built)
       = Some (status, later) /\
     steps = [Compiled cmd; Logged ("compiled " +:+ inputExe +:+ " to " +:+ built)]
             ++ later).
Proof.
  unfold main, goBuild.
  destruct (String.eqb (Ext inputExe) ".go") eqn:Hext.
  - apply String.eqb_eq in Hext.
    destruct (Run world (goBuild_cmd (Environ world) inputExe)) as [e|] eqn:Hrun.
    + intros H; inversion H; subst. right. left. split; [done|]. by exists e.
    + destruct (package _ _ _ _ _ _) as [[st later]|] eqn:Hp; [|done].
      intros H; inversion H; subst. right. right. split; [done|]. split; [done|].
      by exists later.
  - apply String.eqb_neq in Hext. intros H. left. by split.
Qed.

(** X11: an invocation either writes a zip file or deploys, never both:
    with no function name it never deploys, with one it never writes a
    file, and an invocation that ends with status 0 has done exactly one
    of the two, once. *)
Theorem main_writes_or_deploys world outputZip functionName Args status steps :
  main world outputZip functionName Args = Some (status, steps) ->
  (count isPackaged steps + count isDeployed steps <= 1)%nat /\
  (functionName = EmptyString -> count isDeployed steps = 0%nat) /\
  (functionName <> EmptyString -> count isPackaged steps = 0%nat) /\
  (status = 0 -> (count isPackaged steps + count isDeployed steps = 1)%nat).
Proof.
  destruct Args as [|inputExe args].
  { intros H; inversion H; subst. repeat split; try done; unfold count; simpl; lia. }
  intros H. apply main_inv in H.
  assert (Hpack : forall exe deferred st later,
             count isPackaged deferred = 0%nat ->
             count isDeployed deferred = 0%nat ->
             package world
               (if String.eqb outputZip EmptyString
                then Filepath.Base inputExe +:+ ".zip" else outputZip)
               functionName exe args deferred = Some (st, later) ->
             (count isPackaged later + count isDeployed later = 1)%nat /\
             (functionName = EmptyString -> count isDeployed later = 0%nat) /\
             (functionName <> EmptyString -> count isPackaged later = 0%nat)).
  { intros exe deferred st later Hd1 Hd2 Hp.
    apply package_inv in Hp as (step & line & -> & _ & Hfile & Hdep).
    assert (Hrest : count isPackaged (if st =? 0 then deferred else []) = 0%nat /\
                    count isDeployed (if st =? 0 then deferred else []) = 0%nat)
      by (by destruct (st =? 0)).
    destruct Hrest as [Hr1 Hr2]. rewrite !count_app, Hr1, Hr2.
    destruct (String.eqb functionName EmptyString) eqn:Hfn.
    - apply String.eqb_eq in Hfn. destruct (Hfile Hfn) as (file & -> & _).
      by repeat split.
    - apply String.eqb_neq in Hfn. destruct (Hdep Hfn) as (trace & ->).
      by repeat split. }
  destruct H as [[_ Hp]|[(_ & e & _ & -> & ->)|(_ & _ & later & Hp & ->)]].
  - destruct (Hpack inputExe [] status steps eq_refl eq_refl Hp) as (H1 & H2 & H3).
    repeat split; try done; lia.
  - repeat split; try done; unfold count; simpl; lia.
  - destruct (filter_cleanup world (Filepath.Base inputExe +:+ ".exe"))
      as (_ & Hc1 & Hc2 & _).
    destruct (Hpack _ _ _ _ Hc1 Hc2 Hp) as (H1 & H2 & H3).
    rewrite !count_app.
    replace (count isPackaged [Compiled (goBuild_cmd (Environ world) inputExe);
               Logged ("compiled " +:+ inputExe +:+ " to "
                       +:+ (Filepath.Base inputExe +:+ ".exe"))]) with 0%nat by done.
    replace (count isDeployed [Compiled (goBuild_cmd (Environ world) inputExe);
               Logged ("compiled " +:+ inputExe +:+ " to "
                       +:+ (Filepath.Base inputExe +:+ ".exe"))]) with 0%nat by done.
    repeat split; try done; lia.
Qed.

Lemma main_writes_or_deploys_witness :
  exists steps,
    main sample_world EmptyString "my-function" ["main.go"; "config.json"]
      = Some (0, steps) /\
    (count isPackaged steps + count isDeployed steps <= 1)%nat /\
    ("my-function" = EmptyString -> count isDeployed steps = 0%nat) /\
    ("my-function" <> EmptyString -> count isPackaged steps = 0%nat) /\
    (0 = 0 -> (count isPackaged steps + count isDeployed steps = 1)%nat).
Proof.
  eexists. split; [reflexivity|].
  apply (main_writes_or_deploys sample_world EmptyString "my-function"
           ["main.go"; "config.json"] 0).
  reflexivity.
Defined.

Lemma zipPaths_app steps1 steps2 :
  zipPaths (steps1 ++ steps2) = zipPaths steps1 ++ zipPaths steps2.
Proof. unfold zipPaths. apply omap_app. Qed.

Lemma package_zipPaths world outputZip functionName inputExe args deferred status steps :
  zipPaths deferred = [] ->
  package world outputZip functionName inputExe args deferred = Some (status, steps) ->
  (forall p, In p (zipPaths steps) -> p = outputZip) /\
  (status = 0 -> functionName = EmptyString -> zipPaths steps = [outputZip]).
Proof.
  intros Hd Hp. apply package_inv in Hp as (step & line & -> & _ & Hfile & Hdep).
  assert (Hrest : zipPaths (if status =? 0 then deferred else []) = [])
    by (by destruct (status =? 0)).
  rewrite zipPaths_app, Hrest, app_nil_r.
  destruct (String.eqb functionName EmptyString) eqn:Hfn.
  - apply String.eqb_eq in Hfn. destruct (Hfile Hfn) as (file & -> & Hpath & Hok).
    split.
    + destruct file as [[path w]|]; simpl; [|done].
      intros p [<-|[]]. by apply (Hpath path w).
    + intros Hst _. by destruct (Hok Hst) as (w & ->).
  - apply String.eqb_neq in Hfn. destruct (Hdep Hfn) as (trace & ->).
    split; [by intros p []|done].
Qed.

(** X12: any zip file an invocation leaves is at the [-o] path or, when
    none is given, at [Base(input) + ".zip"] for the input as given on the
    command line (for a compiled [main.go], [main.go.zip]); an invocation
    in file mode that ends with status 0 has left exactly that file. *)
Theorem main_zip_path world outputZip functionName inputExe args status steps :
  main world outputZip functionName (inputExe :: args) = Some (status, steps) ->
  (forall p, In p (zipPaths steps) ->
     p = if String.eqb outputZip EmptyString
         then Filepath.Base inputExe +:+ ".zip" else outputZip) /\
  (status = 0 -> functionName = EmptyString ->
   zipPaths steps = [if String.eqb outputZip EmptyString
                     then Filepath.Base inputExe +:+ ".zip" else outputZip]).
Proof.
  intros H. apply main_inv in H.
  destruct H as [[_ Hp]|[(_ & e & _ & -> & ->)|(_ & _ & later & Hp & ->)]].
  - by apply (package_zipPaths _ _ _ _ _ [] _ _ eq_refl) in Hp.
  - split; [by intros p []|discriminate].
  - destruct (filter_cleanup world (Filepath.Base inputExe +:+ ".exe"))
      as (_ & _ & _ & _ & Hz).
    apply (package_zipPaths _ _ _ _ _ _ _ _ Hz) in Hp.
    by rewrite zipPaths_app.
Qed.

Lemma main_zip_path_witness :
  exists steps,
    main sample_world EmptyString EmptyString ["main.go"; "config.json"]
      = Some (0, steps) /\
    (forall p, In p (zipPaths steps) -> p = "main.go.zip") /\
    (0 = 0 -> EmptyString = EmptyString -> zipPaths steps = ["main.go.zip"]).
Proof.
  eexists. split; [reflexivity|].
  apply (main_zip_path sample_world EmptyString EmptyString "main.go" ["config.json"] 0).
  reflexivity.
Defined.

Lemma package_steps world outputZip functionName inputExe args deferred status steps :
  package world outputZip functionName inputExe args deferred = Some (status, steps) ->
  exists step line,
    steps = [step; Logged line] ++ (if status =? 0 then deferred else []) /\
    (status = 0 \/ status = 1) /\
    isRemoved step = false /\ isCompiled step = false.
Proof.
  intros Hp. apply package_inv in Hp as (step & line & -> & Hst & Hfile & Hdep).
  exists step, line. split; [done|]. split; [done|].
  destruct (String.eqb functionName EmptyString) eqn:Hfn.
  - apply String.eqb_eq in Hfn. by destruct (Hfile Hfn) as (file & -> & _).
  - apply String.eqb_neq in Hfn. by destruct (Hdep Hfn) as (trace & ->).
Qed.

(** X13: the compiler runs only for an input with extension [.go], once,
    before anything else.  When it fails the invocation ends with status 1
    and nothing is packaged or deployed.  The compiled executable is
    removed, as the last thing done, exactly when the invocation ends
    with status 0 (whether or not the removal itself succeeds); when
    packaging or deploying fails it is left behind.  An input that is not
    compiled is never removed. *)
Theorem main_intermediate_file world outputZip functionName inputExe args status steps :
  main world outputZip functionName (inputExe :: args) = Some (status, steps) ->
  (Ext inputExe <> ".go" ->
     count isCompiled steps = 0%nat /\ count isRemoved steps = 0%nat) /\
  (Ext inputExe = ".go" ->
     List.filter isCompiled steps = [Compiled (goBuild_cmd (Environ world) inputExe)] /\
     head steps = Some (Compiled (goBuild_cmd (Environ world) inputExe)) /\
     (Run world (goBuild_cmd (Environ world) inputExe) <> None ->
        status = 1 /\ count isPackaged steps = 0%nat /\ count isDeployed steps = 0%nat) /\
     (status = 0 ->
        List.filter isRemoved steps = [Removed (Filepath.Base inputExe +:+ ".exe")]) /\
     (status <> 0 -> count isRemoved steps = 0%nat)).
Proof.
  intros H. apply main_inv in H.
  destruct H as [[Hext Hp]|[(Hext & e & Hrun & -> & ->)|(Hext & Hrun & later & Hp & ->)]].
  - split; [|done]. intros _.
    apply package_steps in Hp as (step & line & -> & _ & Hr & Hc).
    destruct (status =? 0); unfold count; simpl; by rewrite Hr, Hc.
  - split; [done|]. intros _. by repeat split.
  - split; [done|]. intros _.
    apply package_steps in Hp as (step & line & -> & Hst & Hr & Hc).
    destruct (filter_cleanup world (Filepath.Base inputExe +:+ ".exe"))
      as (Hrm & _ & _ & Hcc & _).
    unfold count in *. apply length_zero_iff_nil in Hcc.
    split; [|split; [done|split; [done|split]]].
    + rewrite !List.filter_app. simpl. rewrite Hc.
      destruct (status =? 0); [by rewrite Hcc|done].
    + intros ->. change (0 =? 0) with true. cbv iota.
      rewrite !List.filter_app, Hrm. simpl. by rewrite Hr.
    + intros Hne. rewrite !List.filter_app. simpl. rewrite Hr.
      destruct Hst as [Hst|Hst]; subst status; done.
Qed.

Lemma main_intermediate_file_witness :
  exists steps,
    main sample_world EmptyString EmptyString ["main.go"; "missing.txt"]
      = Some (1, steps) /\
    (Ext "main.go" <> ".go" ->
       count isCompiled steps = 0%nat /\ count isRemoved steps = 0%nat) /\
    (Ext "main.go" = ".go" ->
       List.filter isCompiled steps
         = [Compiled (goBuild_cmd (Environ sample_world) "main.go")] /\
       head steps = Some (Compiled (goBuild_cmd (Environ sample_world) "main.go")) /\
       (Run sample_world (goBuild_cmd (Environ sample_world) "main.go") <> None ->
          1 = 1 /\ count isPackaged steps = 0%nat /\ count isDeployed steps = 0%nat) /\
       (1 = 0 ->
          List.filter isRemoved steps = [Removed (Filepath.Base "main.go" +:+ ".exe")]) /\
       (1 <> 0 -> count isRemoved steps = 0%nat)).
Proof.
  eexists. split; [reflexivity|].
  apply (main_intermediate_file sample_world EmptyString EmptyString "main.go"
           ["missing.txt"] 1).
  reflexivity.
Defined.

End MainTheorems.

(** ** lambda/messages: FromRecover, and what both functions keep *)
Module RecoverTheorems.
Import Messages Recover MessagesTheorems.

(** X14: [FromRecover] returns nil for a nil value and for a nil
    [*InvokeResponse_Error], and for nothing else.  It returns an
    [*InvokeResponse_Error] as it is and an [InvokeResponse_Error] value as
    a pointer to a new object holding it.  For a value of any other type it
    returns a new object with the message and stack trace [getPanicInfo]
    gives for that value, the name of the value's type (of the element
    type for a pointer), and [ShouldExit] set. *)
Theorem FromRecover_result (getPanicInfo : error_value -> panicInfo)
    (err : error_value) (h : heap) :
  (fst (FromRecover getPanicInfo err h) = None <-> err = ErrNil \/ err = ErrPointer None) /\
  match err with
  | ErrNil => FromRecover getPanicInfo err h = (None, h)
  | ErrPointer p => FromRecover getPanicInfo err h = (p, h)
  | ErrValue ive =>
      exists l, h !! l = None /\
        FromRecover getPanicInfo err h = (Some l, <[l := ive]> h)
  | ErrOther errorType msg =>
      exists l, h !! l = None /\
        FromRecover getPanicInfo err h =
          (Some l, <[l := {| Message := pi_Message (getPanicInfo err);
                             Type_ := getErrorType errorType;
                             StackTrace := pi_StackTrace (getPanicInfo err);
                             ShouldExit := true |}]> h)
  end.
Proof.
  destruct err as [|ive|p|errorType msg]; simpl.
  - split; [|done]. split; [by left|done].
  - destruct (alloc_fresh ive h) as (l & Hl & Ha). rewrite Ha. simpl. split.
    + split; [done|]. by intros [|].
    + by exists l.
  - split; [|done]. split; [intros ->; by right|]. by intros [|[= ->]].
  - destruct (alloc_fresh {| Message := pi_Message (getPanicInfo (ErrOther errorType msg));
                             Type_ := getErrorType errorType;
                             StackTrace := pi_StackTrace (getPanicInfo (ErrOther errorType msg));
                             ShouldExit := true |} h) as (l & Hl & Ha).
    rewrite Ha. simpl. split.
    + split; [done|]. by intros [|].
    + by exists l.
Qed.

(** X15: [FromError] and [FromRecover] treat nil, [InvokeResponse_Error]
    values and [*InvokeResponse_Error] pointers alike.  For a value of any
    other type both return a new object with the same [Type]; the one from
    [FromRecover] has [ShouldExit] set, the one from [FromError] has it
    clear and no stack trace. *)
Theorem FromRecover_and_FromError (getPanicInfo : error_value -> panicInfo)
    (err : error_value) (h : heap) :
  match err with
  | ErrOther errorType msg =>
      exists recovered returned,
        load (fst (FromRecover getPanicInfo err h)) (snd (FromRecover getPanicInfo err h))
          = Some recovered /\
        load (fst (FromError err h)) (snd (FromError err h)) = Some returned /\
        Type_ recovered = Type_ returned /\
        ShouldExit recovered = true /\
        ShouldExit returned = false /\
        StackTrace returned = [] /\
        Message returned = msg
  | _ => FromRecover getPanicInfo err h = FromError err h
  end.
Proof.
  destruct err as [|ive|p|errorType msg]; try done.
  simpl. unfold alloc. simpl. rewrite !lookup_insert_eq.
  eexists _, _. by repeat split.
Qed.

(** X16: neither function touches an object that exists: whatever is
    stored at a location before the call is stored there after it. *)
Theorem conversion_keeps_objects (getPanicInfo : error_value -> panicInfo)
    (err : error_value) (h : heap) l v :
  h !! l = Some v ->
  snd (FromError err h) !! l = Some v /\
  snd (FromRecover getPanicInfo err h) !! l = Some v.
Proof.
  intros Hl.
  assert (Halloc : forall x, snd (alloc x h) !! l = Some v).
  { intros x. destruct (alloc_fresh x h) as (l' & Hl' & ->). simpl.
    rewrite lookup_insert_ne; [done|]. intros ->. congruence. }
  destruct err as [|ive|p|errorType msg]; simpl; try done; split; apply Halloc.
Qed.

Lemma conversion_keeps_objects_witness :
  ({[ 0%nat := {| Message := "first"; Type_ := "T"; StackTrace := [];
                  ShouldExit := false |} ]} : heap) !! 0%nat
    = Some {| Message := "first"; Type_ := "T"; StackTrace := []; ShouldExit := false |} /\
  snd (FromError (ErrOther (RType "errorString" None) "boom")
         {[ 0%nat := {| Message := "first"; Type_ := "T"; StackTrace := [];
                        ShouldExit := false |} ]}) !! 0%nat
    = Some {| Message := "first"; Type_ := "T"; StackTrace := []; ShouldExit := false |} /\
  snd (FromRecover sample_getPanicInfo (ErrOther (RType "errorString" None) "boom")
         {[ 0%nat := {| Message := "first"; Type_ := "T"; StackTrace := [];
                        ShouldExit := false |} ]}) !! 0%nat
    = Some {| Message := "first"; Type_ := "T"; StackTrace := []; ShouldExit := false |}.
Proof.
  split; [reflexivity|].
  exact (conversion_keeps_objects sample_getPanicInfo
           (ErrOther (RType "errorString" None) "boom")
           {[ 0%nat := {| Message := "first"; Type_ := "T"; StackTrace := [];
                          ShouldExit := false |} ]}
           0%nat _ eq_refl).
Defined.

Example FromRecover_panic_value :
  load (fst (FromRecover sample_getPanicInfo (ErrOther (RType "string" None) "oops") ∅))
       (snd (FromRecover sample_getPanicInfo (ErrOther (RType "string" None) "oops") ∅))
  = Some {| Message := "oops"; Type_ := "string";
            StackTrace := [ {| Path := "main.go"; Line := 12; Label := "handler" |} ];
            ShouldExit := true |}.
Proof. reflexivity. Qed.

End RecoverTheorems.

(** ** More on the JSON methods of events *)
Module EventsMore.
Import Strings Events Worded Shapes StringsFacts EventsTheorems.

Lemma Split_all_plain s sep :
  Forall (fun x => Contains x sep = false) (Split s sep).
Proof.
  induction s as [|c rest IH]; simpl; [by repeat constructor|].
  destruct (Ascii.eqb c sep) eqn:Hc; [by constructor|].
  pose proof (Split_nonempty rest sep) as Hne.
  destruct (Split rest sep) as [|x xs]; [done|].
  inversion IH as [|? ? Hx Hxs]; subst. constructor; [|done]. simpl.
  by rewrite Hc, Hx.
Qed.

Lemma Split_sep s sep t :
  Split (s +:+ String sep t) sep = Split s sep ++ Split t sep.
Proof.
  induction s as [|c rest IH]; simpl.
  - by rewrite Ascii.eqb_refl.
  - rewrite IH. destruct (Ascii.eqb c sep); [done|].
    pose proof (Split_nonempty rest sep).
    by destruct (Split rest sep).
Qed.

Lemma Split_Join_any l :
  l <> [] ->
  Split (Join l ",") "," = flat_map (fun s => Split s ",") l.
Proof.
  intros Hne. induction l as [|x l IH]; [done|].
  destruct l as [|y l].
  - simpl. by rewrite app_nil_r.
  - change (Join (x :: y :: l) ",") with (x +:+ String "," (Join (y :: l) ",")).
    rewrite Split_sep. cbn [flat_map]. f_equal. by apply IH.
Qed.

Lemma Join_Split s sep : Join (Split s sep) (String sep EmptyString) = s.
Proof.
  induction s as [|c rest IH]; [done|]. simpl.
  pose proof (Split_nonempty rest sep) as Hne.
  destruct (Ascii.eqb c sep) eqn:Hc.
  - apply Ascii.eqb_eq in Hc. subst c.
    destruct (Split rest sep) as [|y ys]; [done|].
    change (Join (EmptyString :: y :: ys) (String sep EmptyString))
      with (String sep (Join (y :: ys) (String sep EmptyString))).
    by rewrite IH.
  - destruct (Split rest sep) as [|x [|y ys]]; [done| |].
    + simpl in *. by rewrite IH.
    + change (Join (String c x :: y :: ys) (String sep EmptyString))
        with (String c (Join (x :: y :: ys) (String sep EmptyString))).
      by rewrite IH.
Qed.

(** X17: what a list of values becomes on the way through JSON.  For
    valid UTF-8 elements, marshalling and unmarshalling a non-empty list
    gives its elements each split at its commas, in order; the empty list
    gives the list holding one empty string. *)
Theorem values_through_json (c : list string) :
  Forall (fun s => ValidString s = true) c ->
  exists j,
    commaSeperatedValues_MarshalJSON c = OK j /\
    commaSeperatedValues_UnmarshalJSON j
    = OK (match c with
          | [] => [EmptyString]
          | _ => flat_map (fun s => Split s ",") c
          end).
Proof.
  intros Hv. eexists. split; [reflexivity|].
  unfold commaSeperatedValues_UnmarshalJSON, marshalString, unmarshalString.
  rewrite !(ToValidUTF8_valid _ (ValidString_Join c Hv)). unfold comma.
  destruct c as [|x c]; [done|]. by rewrite Split_Join_any.
Qed.

Lemma values_through_json_witness :
  Forall (fun s => ValidString s = true) ["a,b"; EmptyString; "c"] /\
  exists j,
    commaSeperatedValues_MarshalJSON ["a,b"; EmptyString; "c"] = OK j /\
    commaSeperatedValues_UnmarshalJSON j = OK ["a"; "b"; EmptyString; "c"].
Proof.
  assert (Hv : Forall (fun s => ValidString s = true) ["a,b"; EmptyString; "c"])
    by (by repeat constructor).
  split; [exact Hv|].
  exact (values_through_json ["a,b"; EmptyString; "c"] Hv).
Defined.

(** X18: the other way round nothing is lost.  A JSON string of valid
    UTF-8 unmarshals to a list that marshals back to the same JSON
    string. *)
Theorem json_string_roundtrip (s : string) :
  ValidString s = true ->
  exists c,
    commaSeperatedValues_UnmarshalJSON (JString s) = OK c /\
    commaSeperatedValues_MarshalJSON c = OK (JString s).
Proof.
  intros Hv. eexists. split; [reflexivity|].
  unfold commaSeperatedValues_MarshalJSON, marshalString, unmarshalString.
  rewrite (ToValidUTF8_valid s Hv). unfold comma.
  by rewrite (Join_Split s ","), (ToValidUTF8_valid s Hv).
Qed.

Lemma json_string_roundtrip_witness :
  ValidString "gzip,,br," = true /\
  exists c,
    commaSeperatedValues_UnmarshalJSON (JString "gzip,,br,") = OK c /\
    commaSeperatedValues_MarshalJSON c = OK (JString "gzip,,br,").
Proof.
  split; [reflexivity|].
  exact (json_string_roundtrip "gzip,,br," eq_refl).
Defined.

Lemma unmarshalMembers_joinable members :
  forall m m',
    joinable m ->
    unmarshalMembers members m = OK m' ->
    joinable m'.
Proof.
  induction members as [|[k j] members IH]; intros m m' Hm; simpl.
  - by intros [= <-].
  - destruct (commaSeperatedValues_UnmarshalJSON j) as [v|e] eqn:Hj; [|done].
    apply IH. intros k' l Hl.
    apply lookup_insert_Some in Hl as [[_ <-]|[_ Hl]]; [|exact (Hm _ _ Hl)].
    unfold commaSeperatedValues_UnmarshalJSON in Hj.
    destruct (unmarshalString j EmptyString) as [s|e]; [|done].
    injection Hj as <-. split; [apply Split_nonempty|apply Split_all_plain].
Qed.

(** X19: every map read by [UnmarshalJSON], headers or query parameters,
    has only non-empty value lists whose elements contain no comma. *)
Theorem unmarshalled_map_joinable (b : JSON) (f : gmap string (list string)) :
  functionURLHeaders_UnmarshalJSON b = OK f \/ functionURLValues_UnmarshalJSON b = OK f ->
  joinable f.
Proof.
  assert (Hempty : joinable (∅ : gmap string (list string))) by (by intros k l).
  assert (Hmap : forall m, unmarshalMap b = OK m -> joinable m).
  { intros m. destruct b; simpl; try done.
    - by intros [= <-].
    - by apply unmarshalMembers_joinable. }
  unfold functionURLHeaders_UnmarshalJSON, functionURLValues_UnmarshalJSON.
  destruct (unmarshalMap b) as [m|e]; [|by intros [|]].
  rewrite copyMap_id. intros [[= <-]|[= <-]]; by apply Hmap.
Qed.

Lemma unmarshalled_map_joinable_witness :
  (functionURLHeaders_UnmarshalJSON
     (JObject [("accept", JString "text/html,*/*"); ("x-empty", JNull)])
   = OK {[ "accept" := ["text/html"; "*/*"]; "x-empty" := [EmptyString] ]}
   \/ functionURLValues_UnmarshalJSON
        (JObject [("accept", JString "text/html,*/*"); ("x-empty", JNull)])
      = OK {[ "accept" := ["text/html"; "*/*"]; "x-empty" := [EmptyString] ]}) /\
  joinable {[ "accept" := ["text/html"; "*/*"]; "x-empty" := [EmptyString] ]}.
Proof.
  assert (H : functionURLHeaders_UnmarshalJSON
                (JObject [("accept", JString "text/html,*/*"); ("x-empty", JNull)])
              = OK {[ "accept" := ["text/html"; "*/*"]; "x-empty" := [EmptyString] ]}).
  { vm_compute. reflexivity. }
  split; [by left|].
  exact (unmarshalled_map_joinable _ _ (or_introl H)).
Defined.

Lemma unmarshalMembers_rejects members :
  Exists (fun kv => stringOrNull kv.2 = false) members ->
  forall m, exists e, unmarshalMembers members m = Err e.
Proof.
  induction 1 as [[k j] members Hbad|[k j] members _ IH]; intros m; simpl in *.
  - destruct j; try discriminate Hbad; simpl; eauto.
  - destruct (commaSeperatedValues_UnmarshalJSON j) as [v|e]; [apply IH|eauto].
Qed.

(** X20: [UnmarshalJSON] returns an error, and no map, for a JSON value
    that is neither an object nor null, and for an object one of whose
    members is neither a string nor null, wherever that member stands. *)
Theorem unmarshal_rejects (b : JSON) :
  objectOrNull b = false \/
  Exists (fun kv => stringOrNull kv.2 = false) (members b) ->
  exists e,
    functionURLHeaders_UnmarshalJSON b = Err e /\
    functionURLValues_UnmarshalJSON b = Err e.
Proof.
  unfold functionURLHeaders_UnmarshalJSON, functionURLValues_UnmarshalJSON.
  intros [Hshape|Hbad].
  - destruct b; try discriminate Hshape; simpl; eauto.
  - destruct b; simpl in Hbad; try (by inversion Hbad).
    simpl. destruct (unmarshalMembers_rejects _ Hbad ∅) as (e & ->). eauto.
Qed.

Lemma unmarshal_rejects_witness :
  (objectOrNull (JObject [("accept", JString "*/*"); ("x-count", JNumber "3")]) = false \/
   Exists (fun kv => stringOrNull kv.2 = false)
          (members (JObject [("accept", JString "*/*"); ("x-count", JNumber "3")]))) /\
  exists e,
    functionURLHeaders_UnmarshalJSON
      (JObject [("accept", JString "*/*"); ("x-count", JNumber "3")]) = Err e /\
    functionURLValues_UnmarshalJSON
      (JObject [("accept", JString "*/*"); ("x-count", JNumber "3")]) = Err e.
Proof.
  assert (H : objectOrNull (JObject [("accept", JString "*/*"); ("x-count", JNumber "3")])
              = false \/
              Exists (fun kv => stringOrNull kv.2 = false)
                (members (JObject [("accept", JString "*/*"); ("x-count", JNumber "3")]))).
  { right. apply Exists_cons_tl, Exists_cons_hd. reflexivity. }
  split; [exact H|].
  exact (unmarshal_rejects _ H).
Defined.

(** X21: [MarshalJSON] never returns an error: for every map, headers or
    query parameters, it gives an object with one member per key, each a
    JSON string. *)
Theorem marshal_total (f : gmap string (list string)) :
  exists ms,
    functionURLHeaders_MarshalJSON f = OK (JObject ms) /\
    functionURLValues_MarshalJSON f = OK (JObject ms) /\
    length ms = size f /\
    Forall (fun kv => exists s, kv.2 = JString s) ms.
Proof.
  exists (map written (merge_sort key_le (map_to_list f))).
  unfold functionURLHeaders_MarshalJSON, functionURLValues_MarshalJSON, marshalMap.
  rewrite copyMap_id, marshalMembers_written.
  split; [done|]. split; [done|]. split.
  - rewrite length_map, merge_sort_Permutation. apply length_map_to_list.
  - apply List.Forall_forall. intros kv Hin.
    apply in_map_iff in Hin as (x & <- & _). unfold written. simpl. eauto.
Qed.

End EventsMore.
